(** * go-autocomplete: the keyword service in front of the search engine

    A shallow embedding of [go-autocomplete/main.go] and of the parts of the
    Go standard library it calls ([strings], [unicode], [unicode/utf8],
    [crypto/sha1], [encoding/hex], [encoding/json]), followed by the
    properties of the upsert / suggest contract and of the index bootstrap.

    Conventions of the embedding
    - a Go [string] is a Rocq [string]: a sequence of 8-bit bytes;
    - a rune and a Go [int] are integers in [Z];
    - a slice is a list, the nil slice being the empty list;
    - a Go map is a [gmap]; a nil map is told apart only where the program
      does so ([Meta]);
    - a JSON text on the wire is the tree [json] of the value it denotes;
    - the search engine is an oracle answering the calls of the client, and
      every call is recorded in a trace. *)

From Stdlib Require Import ZArith Lia List String Ascii Bool.
From stdpp Require Import gmap strings list.

#[local] Set Warnings "-register-all".
#[local] Open Scope Z_scope.

(** ** Bytes *)

(** The numeric value of a byte, and the byte of a number ([byte(x)] in Go
    keeps the low eight bits). *)
Definition bv (a : ascii) : Z := Z.of_N (N_of_ascii a).
Definition byte (z : Z) : ascii := ascii_of_N (Z.to_N (z mod 256)).

(** [[]byte(s)] and [string(b)]. *)
Definition bytes (s : string) : list ascii := list_ascii_of_string s.
Definition of_bytes (p : list ascii) : string := string_of_list_ascii p.

(** ** unicode/utf8 *)
Module utf8.

Definition RuneError : Z := 0xFFFD.
Definition RuneSelf : Z := 0x80.
Definition MaxRune : Z := 0x10FFFF.
Definition surrogateMin : Z := 0xD800.
Definition surrogateMax : Z := 0xDFFF.

Definition t2 : Z := 0xC0.
Definition t3 : Z := 0xE0.
Definition t4 : Z := 0xF0.
Definition tx : Z := 0x80.
Definition maskx : Z := 0x3F.
Definition mask2 : Z := 0x1F.
Definition mask3 : Z := 0x0F.
Definition mask4 : Z := 0x07.
Definition locb : Z := 0x80.
Definition hicb : Z := 0xBF.
Definition rune1Max : Z := 0x7F.
Definition rune2Max : Z := 0x7FF.
Definition rune3Max : Z := 0xFFFF.

(** The table [first] joined with [acceptRanges]: for a leading byte of a
    multi-byte sequence, the length of the sequence and the range accepted
    for its second byte; [None] for ASCII and for invalid leading bytes. *)
Definition first (s0 : Z) : option (nat * Z * Z) :=
  if s0 <? 0xC2 then None
  else if s0 <? 0xE0 then Some (2%nat, locb, hicb)
  else if s0 =? 0xE0 then Some (3%nat, 0xA0, hicb)
  else if s0 <? 0xED then Some (3%nat, locb, hicb)
  else if s0 =? 0xED then Some (3%nat, locb, 0x9F)
  else if s0 <? 0xF0 then Some (3%nat, locb, hicb)
  else if s0 =? 0xF0 then Some (4%nat, 0x90, hicb)
  else if s0 <? 0xF4 then Some (4%nat, locb, hicb)
  else if s0 =? 0xF4 then Some (4%nat, locb, 0x8F)
  else None.

Definition outside (lo hi b : Z) : bool := (b <? lo) || (hi <? b).

(** [utf8.DecodeRuneInString]: the first rune of [p] and its width in
    bytes; [(RuneError, 1)] for a byte that starts no valid encoding and
    [(RuneError, 0)] for the empty string. *)
Definition DecodeRune (p : list ascii) : Z * nat :=
  match p with
  | [] => (RuneError, 0%nat)
  | a0 :: p1 =>
    let s0 := bv a0 in
    if s0 <? RuneSelf then (s0, 1%nat)
    else
      match first s0 with
      | None => (RuneError, 1%nat)
      | Some (sz, lo, hi) =>
        match p1 with
        | [] => (RuneError, 1%nat)
        | a1 :: p2 =>
          let s1 := bv a1 in
          if outside lo hi s1 then (RuneError, 1%nat)
          else if (sz <=? 2)%nat then
            (Z.lor (Z.shiftl (Z.land s0 mask2) 6) (Z.land s1 maskx), 2%nat)
          else
            match p2 with
            | [] => (RuneError, 1%nat)
            | a2 :: p3 =>
              let s2 := bv a2 in
              if outside locb hicb s2 then (RuneError, 1%nat)
              else if (sz <=? 3)%nat then
                (Z.lor (Z.lor (Z.shiftl (Z.land s0 mask3) 12)
                              (Z.shiftl (Z.land s1 maskx) 6))
                       (Z.land s2 maskx), 3%nat)
              else
                match p3 with
                | [] => (RuneError, 1%nat)
                | a3 :: _ =>
                  let s3 := bv a3 in
                  if outside locb hicb s3 then (RuneError, 1%nat)
                  else
                    (Z.lor (Z.lor (Z.lor (Z.shiftl (Z.land s0 mask4) 18)
                                         (Z.shiftl (Z.land s1 maskx) 12))
                                  (Z.shiftl (Z.land s2 maskx) 6))
                           (Z.land s3 maskx), 4%nat)
                end
            end
        end
      end
  end.

(** [utf8.RuneStart]: the byte is not a continuation byte. *)
Definition RuneStart (b : ascii) : bool :=
  negb (Z.land (bv b) 0xC0 =? 0x80).

(** The window [s[start:end]] that [DecodeLastRuneInString] decodes, read
    off the reversed string [q]: the search for a rune start goes back over
    at most [UTFMax - 1] bytes before the last one. *)
Definition lastWindow (q : list ascii) : option (list ascii) :=
  match q with
  | a :: b1 :: q2 =>
    if RuneStart b1 then Some [b1; a]
    else
      match q2 with
      | b2 :: q3 =>
        if RuneStart b2 then Some [b2; b1; a]
        else
          match q3 with
          | b3 :: _ => if RuneStart b3 then Some [b3; b2; b1; a] else None
          | [] => None
          end
      | [] => None
      end
  | _ => None
  end.

(** [utf8.DecodeLastRuneInString], on the reversed string: the last rune
    and its width. *)
Definition DecodeLastRune_rev (q : list ascii) : Z * nat :=
  match q with
  | [] => (RuneError, 0%nat)
  | a :: _ =>
    if bv a <? RuneSelf then (bv a, 1%nat)
    else
      match lastWindow q with
      | None => (RuneError, 1%nat)
      | Some w =>
        let '(r, size) := DecodeRune w in
        if (size =? length w)%nat then (r, size) else (RuneError, 1%nat)
      end
  end.

Definition DecodeLastRune (p : list ascii) : Z * nat :=
  DecodeLastRune_rev (rev p).

Definition encode3 (r : Z) : list ascii :=
  [byte (Z.lor t3 (Z.shiftr r 12));
   byte (Z.lor tx (Z.land (Z.shiftr r 6) maskx));
   byte (Z.lor tx (Z.land r maskx))].

(** [utf8.AppendRune] to the empty slice: the UTF-8 encoding of [r], that
    of [RuneError] when [r] is out of range or a surrogate. *)
Definition EncodeRune (r : Z) : list ascii :=
  if (0 <=? r) && (r <=? rune1Max) then [byte r]
  else if (0 <=? r) && (r <=? rune2Max) then
    [byte (Z.lor t2 (Z.shiftr r 6)); byte (Z.lor tx (Z.land r maskx))]
  else if (r <? 0) || (MaxRune <? r)
          || ((surrogateMin <=? r) && (r <=? surrogateMax)) then
    encode3 RuneError
  else if r <=? rune3Max then encode3 r
  else
    [byte (Z.lor t4 (Z.shiftr r 18));
     byte (Z.lor tx (Z.land (Z.shiftr r 12) maskx));
     byte (Z.lor tx (Z.land (Z.shiftr r 6) maskx));
     byte (Z.lor tx (Z.land r maskx))].

(** The runes a [for _, c := range s] loop yields. [skip] counts the bytes
    of the current rune still to be passed over. *)
Fixpoint runes_from (skip : nat) (p : list ascii) : list Z :=
  match p with
  | [] => []
  | _ :: p' =>
    match skip with
    | S k => runes_from k p'
    | O => let '(r, w) := DecodeRune p in r :: runes_from (Nat.pred w) p'
    end
  end.

Definition runes (p : list ascii) : list Z := runes_from 0 p.

End utf8.

(** ** unicode *)
Module unicode.

Definition MaxASCII : Z := 0x7F.
Definition MaxLatin1 : Z := 0xFF.

(** [unicode.IsSpace]: the Latin-1 spaces, then the rest of the
    [White_Space] table. *)
Definition IsSpace (r : Z) : bool :=
  if (0 <=? r) && (r <=? MaxLatin1) then
    (r =? 0x09) || (r =? 0x0A) || (r =? 0x0B) || (r =? 0x0C) || (r =? 0x0D)
    || (r =? 0x20) || (r =? 0x85) || (r =? 0xA0)
  else
    (r =? 0x1680) || ((0x2000 <=? r) && (r <=? 0x200A))
    || (r =? 0x2028) || (r =? 0x2029) || (r =? 0x202F) || (r =? 0x205F)
    || (r =? 0x3000).

(** The lower-case mapping of the runes above ASCII is the table
    [CaseRanges] of the Go release in use ([unicode.To(LowerCase, r)]); it
    is not part of this repository and is left open. *)
Class CaseTable := { To_LowerCase : Z -> Z }.

(** [unicode.ToLower]. *)
Definition ToLower `{CaseTable} (r : Z) : Z :=
  if r <=? MaxASCII then
    if (65 <=? r) && (r <=? 90) then r + 32 else r
  else To_LowerCase r.

End unicode.

(** ** strings *)
Module strings.
Import utf8 unicode.

(** [strings.TrimLeftFunc(s, unicode.IsSpace)]: the runes are decoded from
    the left and dropped while they are spaces. *)
Fixpoint trimLeft_from (skip : nat) (p : list ascii) : list ascii :=
  match p with
  | [] => []
  | _ :: p' =>
    match skip with
    | S k => trimLeft_from k p'
    | O =>
      let '(r, w) := DecodeRune p in
      if IsSpace r then trimLeft_from (Nat.pred w) p' else p
    end
  end.

Definition trimLeft (p : list ascii) : list ascii := trimLeft_from 0 p.

(** [strings.TrimRightFunc(s, unicode.IsSpace)], on the reversed string:
    the runes are decoded from the right and dropped while they are
    spaces. *)
Fixpoint trimRight_from (skip : nat) (q : list ascii) : list ascii :=
  match q with
  | [] => []
  | _ :: q' =>
    match skip with
    | S k => trimRight_from k q'
    | O =>
      let '(r, w) := DecodeLastRune_rev q in
      if IsSpace r then trimRight_from (Nat.pred w) q' else q
    end
  end.

Definition trimRight (p : list ascii) : list ascii :=
  rev (trimRight_from 0 (rev p)).

(** The table [asciiSpace] of the library. *)
Definition asciiSpace (a : ascii) : bool :=
  (bv a =? 0x09) || (bv a =? 0x0A) || (bv a =? 0x0B) || (bv a =? 0x0C)
  || (bv a =? 0x0D) || (bv a =? 0x20).

(** The bytes left after the leading ASCII spaces. *)
Fixpoint drop_spaces (p : list ascii) : list ascii :=
  match p with
  | [] => []
  | a :: p' => if asciiSpace a then drop_spaces p' else p
  end.

(** [strings.TrimSpace]: all leading and trailing white space removed. The
    library has byte-wise paths for ASCII spaces ([TrimSpace_ascii] below:
    the result is the same). *)
Definition TrimSpace (s : string) : string :=
  of_bytes (trimRight (trimLeft (bytes s))).

(** [strings.Map(mapping, s)]: every rune of [s] replaced by the encoding
    of its image, dropped when the image is negative. A byte that is not
    valid UTF-8 is read as [RuneError]. The library copies the runes it
    does not change instead of encoding them again ([Map_fixed] below: the
    bytes are the same). *)
Definition Map (mapping : Z -> Z) (p : list ascii) : list ascii :=
  flat_map (fun c => let r := mapping c in
                     if r <? 0 then [] else EncodeRune r) (runes p).

(** [strings.ToLower]. The library has a byte-wise path for ASCII strings
    ([ToLower_ascii] below: the result is the same). *)
Definition ToLower `{CaseTable} (s : string) : string :=
  of_bytes (Map ToLower (bytes s)).

End strings.

(** ** crypto/sha1 *)
Module sha1.

Definition chunk : nat := 64.

(** Arithmetic on [uint32] wraps around. *)
Definition u32 (x : Z) : Z := x mod 2 ^ 32.
Definition RotateLeft32 (x k : Z) : Z :=
  u32 (Z.lor (Z.shiftl x k) (Z.shiftr x (32 - k))).
Definition not32 (x : Z) : Z := Z.lxor x 0xFFFFFFFF.

Definition _K0 : Z := 0x5A827999.
Definition _K1 : Z := 0x6ED9EBA1.
Definition _K2 : Z := 0x8F1BBCDC.
Definition _K3 : Z := 0xCA62C1D6.

Definition BEUint32 (b0 b1 b2 b3 : Z) : Z :=
  Z.lor (Z.lor (Z.lor (Z.shiftl b0 24) (Z.shiftl b1 16)) (Z.shiftl b2 8)) b3.

Definition BEPutUint32 (x : Z) : list Z :=
  [Z.land (Z.shiftr x 24) 0xFF; Z.land (Z.shiftr x 16) 0xFF;
   Z.land (Z.shiftr x 8) 0xFF; Z.land x 0xFF].

Definition BEPutUint64 (x : Z) : list Z :=
  BEPutUint32 (Z.shiftr (x mod 2 ^ 64) 32) ++ BEPutUint32 (x mod 2 ^ 32).

(** The sixteen big-endian words of a block. *)
Fixpoint words (p : list Z) : list Z :=
  match p with
  | b0 :: b1 :: b2 :: b3 :: p' => BEUint32 b0 b1 b2 b3 :: words p'
  | _ => []
  end.

(** The message schedule, latest word first: word [i] is
    [w(i-3) xor w(i-8) xor w(i-14) xor w(i-16)] rotated by one. *)
Fixpoint schedule (n : nat) (w : list Z) : list Z :=
  match n with
  | O => w
  | S n' =>
    let tmp := Z.lxor (Z.lxor (Z.lxor (nth 2 w 0) (nth 7 w 0)) (nth 13 w 0))
                      (nth 15 w 0) in
    schedule n' (RotateLeft32 tmp 1 :: w)
  end.

Definition f (i : nat) (b c d : Z) : Z :=
  if (i <? 20)%nat then Z.lor (Z.land b c) (Z.land (not32 b) d)
  else if (i <? 40)%nat then Z.lxor (Z.lxor b c) d
  else if (i <? 60)%nat then Z.lor (Z.land (Z.lor b c) d) (Z.land b c)
  else Z.lxor (Z.lxor b c) d.

Definition K (i : nat) : Z :=
  if (i <? 20)%nat then _K0 else if (i <? 40)%nat then _K1
  else if (i <? 60)%nat then _K2 else _K3.

Definition state : Type := Z * Z * Z * Z * Z.

Definition init : state :=
  (0x67452301, 0xEFCDAB89, 0x98BADCFE, 0x10325476, 0xC3D2E1F0).

(** One of the eighty rounds. *)
Definition round (i : nat) (wi : Z) (s : state) : state :=
  let '(a, b, c, d, e) := s in
  let t := u32 (RotateLeft32 a 5 + f i b c d + e + wi + K i) in
  (t, a, RotateLeft32 b 30, c, d).

Fixpoint rounds (i : nat) (w : list Z) (s : state) : state :=
  match w with
  | [] => s
  | wi :: w' => rounds (S i) w' (round i wi s)
  end.

(** [blockGeneric] on one block of 64 bytes. *)
Definition block (h : state) (p : list Z) : state :=
  let w := rev (schedule 64 (rev (words p))) in
  let '(h0, h1, h2, h3, h4) := h in
  let '(a, b, c, d, e) := rounds 0 w h in
  (u32 (h0 + a), u32 (h1 + b), u32 (h2 + c), u32 (h3 + d), u32 (h4 + e)).

Fixpoint blocks (n : nat) (h : state) (p : list Z) : state :=
  match n with
  | O => h
  | S n' => blocks n' (block h (firstn chunk p)) (skipn chunk p)
  end.

(** The padding of [checkSum]: a one bit, zero bits up to 56 bytes modulo
    64, then the length of the message in bits. *)
Definition padding (len : Z) : list Z :=
  let t := if len mod 64 <? 56 then 56 - len mod 64
           else 64 + 56 - len mod 64 in
  0x80 :: repeat 0 (Z.to_nat (t - 1)) ++ BEPutUint64 (Z.shiftl len 3).

(** [sha1.Sum]: the 20 bytes of the digest. *)
Definition Sum (data : list ascii) : list ascii :=
  let msg := map bv data in
  let p := msg ++ padding (Z.of_nat (length msg)) in
  let '(h0, h1, h2, h3, h4) :=
    blocks (length p / chunk) init p in
  map byte (BEPutUint32 h0 ++ BEPutUint32 h1 ++ BEPutUint32 h2
            ++ BEPutUint32 h3 ++ BEPutUint32 h4).

End sha1.

(** ** encoding/hex *)
Module hex.

Definition hextable : list ascii := bytes "0123456789abcdef".

Definition digit (n : Z) : ascii := nth (Z.to_nat n) hextable "0"%char.

(** [hex.EncodeToString]: two lower-case digits for every byte. *)
Definition EncodeToString (src : list ascii) : string :=
  of_bytes (flat_map (fun b => [digit (Z.shiftr (bv b) 4);
                                digit (Z.land (bv b) 0x0F)]) src).

End hex.

(** ** Dynamic values and JSON *)

(** The values held by an [interface{}] in this program. A [float64] is
    given by its IEEE-754 bit pattern: the service stores and forwards such
    numbers and never computes with them. The map under [AMap] is [None] for
    the nil map. *)
Inductive any : Type :=
| ANil
| ABool (b : bool)
| AInt (n : Z)
| AFloat64 (bits : Z)
| AString (s : string)
| AStrings (l : list string)
| ASlice (l : list any)
| AMap (m : option (gmap string any)).

(** A JSON text, as the tree of the value it denotes. A number keeps its
    literal, a string is the text it stands for, and the members of an object
    come in the order of the text, repeated names included. *)
Inductive json : Type :=
| JNull
| JBool (b : bool)
| JNumber (lit : string)
| JString (s : string)
| JArray (items : list json)
| JObject (members : list (string * json)).

(** What the program needs from libraries whose tables and number formats
    are not part of this repository: the case table of [unicode] (above), the
    folding of member names by [encoding/json] and [strconv.ParseFloat]. *)
Class JSONLib := {
  foldName : string -> string;
  ParseFloat : string -> option Z
}.

Module json_lib.
#[local] Open Scope string_scope.

(** [json.Marshal] fails on the values JSON cannot express: a [float64]
    that is NaN or infinite (all exponent bits set). *)
Fixpoint marshals (v : any) : bool :=
  match v with
  | AFloat64 bits => negb (Z.land (Z.shiftr bits 52) 0x7FF =? 0x7FF)%Z
  | ASlice l => forallb marshals l
  | AMap (Some m) => map_fold (fun _ x acc => marshals x && acc) true m
  | _ => true
  end.

(** [json.Marshal]: the encoding is represented by the value encoded. *)
Definition Marshal (v : any) : option any :=
  if marshals v then Some v else None.

Fixpoint index_where (f : string -> bool) (names : list string) : option nat :=
  match names with
  | [] => None
  | n :: names' => if f n then Some O else S <$> index_where f names'
  end.

(** The field of a struct that a member named [key] is stored into, by
    its position in [names] (the tags of the fields): the field of that
    very name, failing that the first one whose name is equal to [key]
    after folding; [None] when the member is to be skipped. *)
Definition field `{JSONLib} (names : list string) (key : string) : option nat :=
  match index_where (String.eqb key) names with
  | Some i => Some i
  | None => index_where (fun n => String.eqb (foldName key) (foldName n)) names
  end.

Definition isDigit (a : ascii) : bool := (48 <=? bv a)%Z && (bv a <=? 57)%Z.

Fixpoint digits (acc : Z) (p : list ascii) : option Z :=
  match p with
  | [] => Some acc
  | a :: p' => if isDigit a then digits (10 * acc + (bv a - 48))%Z p' else None
  end.

(** [strconv.ParseInt(lit, 10, 64)] on a JSON number literal: a literal
    with a fraction or an exponent, or out of the range of [int64], is an
    error. *)
Definition ParseInt (lit : string) : option Z :=
  let in_range (n : Z) := if (- 2 ^ 63 <=? n)%Z && (n <? 2 ^ 63)%Z then Some n else None in
  match bytes lit with
  | [] => None
  | a :: p =>
    if (bv a =? 45)%Z then
      match p with
      | [] => None
      | _ => n ← digits 0 p; in_range (- n)%Z
      end
    else n ← digits 0 (a :: p); in_range n
  end.

(** Decoding into a [string]. [null] leaves the target as it is. *)
Definition into_string (j : json) (cur : string) : option string :=
  match j with
  | JNull => Some cur
  | JString s => Some s
  | _ => None
  end.

(** Decoding into an [int]. *)
Definition into_int (j : json) (cur : Z) : option Z :=
  match j with
  | JNull => Some cur
  | JNumber lit => ParseInt lit
  | _ => None
  end.

(** Decoding into an [interface{}]: a fresh value. *)
Fixpoint into_any `{JSONLib} (j : json) : option any :=
  match j with
  | JNull => Some ANil
  | JBool b => Some (ABool b)
  | JNumber lit => AFloat64 <$> ParseFloat lit
  | JString s => Some (AString s)
  | JArray items =>
    ASlice <$> (fix elems (l : list json) : option (list any) :=
                  match l with
                  | [] => Some []
                  | x :: l' => v ← into_any x; vs ← elems l'; Some (v :: vs)
                  end) items
  | JObject members =>
    (fun m => AMap (Some m)) <$>
    (fix entries (l : list (string * json)) (m : gmap string any)
       : option (gmap string any) :=
       match l with
       | [] => Some m
       | (k, x) :: l' => v ← into_any x; entries l' (<[k := v]> m)
       end) members ∅
  end.

(** Decoding into a [map[string]interface{}]: [null] makes it nil, an
    object adds its members to the map (made first when nil). *)
Definition into_map `{JSONLib} (j : json) (cur : option (gmap string any))
  : option (option (gmap string any)) :=
  match j with
  | JNull => Some None
  | JObject members =>
    Some <$> foldl (fun acc '(k, x) => m ← acc; v ← into_any x; Some (<[k := v]> m))
                   (Some (default ∅ cur)) members
  | _ => None
  end.

(** Decoding an object into a struct: the members are taken in order, each
    one stored by [store] into the field it selects; a member that selects
    no field is skipped. The first error makes the whole decoding fail. *)
Definition into_struct {T} (store : string -> json -> T -> option T)
           (j : json) (cur : T) : option T :=
  match j with
  | JNull => Some cur
  | JObject members =>
    foldl (fun acc '(k, x) => t ← acc; store k x t) (Some cur) members
  | _ => None
  end.

(** Decoding an array into a slice: element [i] of the array is decoded
    into element [i] of the slice where the slice has one, and into a zero
    element otherwise; the slice ends with the array. [null] makes the
    slice nil. *)
Fixpoint into_elems {T} (elem : json -> T -> option T) (zero : T)
         (items : list json) (cur : list T) : option (list T) :=
  match items with
  | [] => Some []
  | x :: items' =>
    v ← elem x (hd zero cur);
    vs ← into_elems elem zero items' (tl cur);
    Some (v :: vs)
  end.

Definition into_slice {T} (elem : json -> T -> option T) (zero : T)
           (j : json) (cur : list T) : option (list T) :=
  match j with
  | JNull => Some []
  | JArray items => into_elems elem zero items cur
  | _ => None
  end.

(** Decoding an object into a map whose values are not interfaces: every
    member is decoded into a zero value and stored under its name. *)
Definition into_map_of {T} (elem : json -> T -> option T) (zero : T)
           (j : json) (cur : gmap string T) : option (gmap string T) :=
  match j with
  | JNull => Some ∅
  | JObject members =>
    foldl (fun acc '(k, x) => m ← acc; v ← elem x zero; Some (<[k := v]> m))
          (Some cur) members
  | _ => None
  end.

End json_lib.

(** ** net/http and the client of the search engine *)
Module http.
Definition StatusOK : Z := 200.
Definition StatusCreated : Z := 201.
Definition StatusBadRequest : Z := 400.
Definition StatusNotFound : Z := 404.
Definition StatusMethodNotAllowed : Z := 405.
Definition StatusInternalServerError : Z := 500.
Definition MethodPost : string := "POST".

(** An incoming request: its method, the parsed query of its URL
    ([r.URL.Query()]) and its body; [None] when the body does not start
    with a JSON value. *)
Record Request := {
  Method : string;
  Query : gmap string (list string);
  Body : option json
}.

(** [url.Values.Get]: the first value of the key, or the empty string. *)
Definition Get (v : gmap string (list string)) (key : string) : string :=
  match v !! key with
  | Some (x :: _) => x
  | _ => ""%string
  end.
End http.

Module esapi.
(** A response of the engine: the status line and the body, [None] when
    the body is not a JSON text. *)
Record Response := { StatusCode : Z; Body : option json }.

(** [Response.IsError]. *)
Definition IsError (res : Response) : bool := 299 <? StatusCode res.

(** A request body: a text given as such, or the encoding of a value. *)
Inductive reader : Type :=
| strings_NewReader (text : json)
| bytes_NewReader (encoded : any).

Record UpdateRequest := {
  Index : string;
  DocumentID : string;
  UpdateBody : reader
}.

(** The calls the service makes. *)
Inductive call : Type :=
| Indices_Exists (index : list string)
| Indices_Create (index : string) (body : reader)
| Update (req : UpdateRequest)
| Search (index : list string) (body : reader).
End esapi.

(** Errors: made by [errors.New], by [fmt.Errorf] with one operand, or
    coming from a library (the transport of the client, [encoding/json]). *)
Inductive error : Type :=
| errors_New (text : string)
| fmt_Errorf (format : string) (a : operand)
| lib_error (text : string)
with operand : Type :=
| OpError (e : error)
| OpInt (n : Z)
| OpResponse (res : esapi.Response).

(** The engine answers a call with a transport error or a response, and
    moves to a new state. *)
Class Engine := {
  ES : Type;
  perform : esapi.call -> ES -> (error + esapi.Response) * ES
}.

(** What a run of the service does to the outside: calls to the engine,
    reading the body of a request, log lines. *)
Inductive event : Type :=
| Call (c : esapi.call)
| ReadBody
| LogPrintf (format : string) (e : error).

Section Effects.
Context `{Engine}.

Record World := { engine : ES; trace : list event }.

(** Computations of the service: state passing over the world. *)
Definition M (A : Type) : Type := World -> A * World.

Definition ret {A} (x : A) : M A := fun w => (x, w).

Definition bind {A B} (c : M A) (k : A -> M B) : M B :=
  fun w => let '(x, w') := c w in k x w'.

Definition emit (e : event) : M unit :=
  fun w => (tt, {| engine := engine w; trace := trace w ++ [e] |}).

(** A call of the client: the engine answers and the call is recorded. *)
Definition Do (c : esapi.call) : M (error + esapi.Response) :=
  fun w => let '(r, s) := perform c (engine w) in
           (r, {| engine := s; trace := trace w ++ [Call c] |}).
End Effects.

Notation "'do' x <- c ; k" := (bind c (fun x => k))
  (at level 10, x name, c at level 100, k at level 200).

(** ** The service: [main.go] *)
Module main.
Import unicode strings json_lib http esapi.
#[local] Open Scope string_scope.

Definition indexName : string := "autocomplete".
Definition defaultESHost : string := "http://localhost:9200".

Record upsertRequest := {
  Keyword : string;
  Weight : Z;
  Meta : option (gmap string any)
}.

Record suggestResponse := { Suggestions : list string }.

(** The text of the constant [indexMapping]. *)
Definition indexMapping : json :=
  JObject
    [("settings",
      JObject
        [("analysis",
          JObject
            [("filter",
              JObject
                [("autocomplete_filter",
                  JObject [("type", JString "edge_ngram");
                           ("min_gram", JNumber "1");
                           ("max_gram", JNumber "20")])]);
             ("analyzer",
              JObject
                [("autocomplete",
                  JObject [("type", JString "custom");
                           ("tokenizer", JString "standard");
                           ("filter",
                            JArray [JString "lowercase";
                                    JString "autocomplete_filter"])])])])]);
     ("mappings",
      JObject
        [("properties",
          JObject
            [("keyword", JObject [("type", JString "keyword")]);
             ("suggest",
              JObject [("type", JString "completion");
                       ("analyzer", JString "autocomplete");
                       ("preserve_separators", JBool true)]);
             ("meta",
              JObject [("type", JString "object");
                       ("enabled", JBool true)])])])].

Section Service.
Context `{CaseTable} `{JSONLib} `{Engine}.

Definition docID (keyword : string) : string :=
  let normalized := ToLower (TrimSpace keyword) in
  let sum := sha1.Sum (bytes normalized) in
  hex.EncodeToString sum.

Definition ensureIndex : M (option error) :=
  do r <- Do (Indices_Exists [indexName]);
  match r with
  | inl err => ret (Some (fmt_Errorf "인덱스 확인 실패: %w" (OpError err)))
  | inr res =>
    if (StatusCode res =? StatusOK)%Z then ret None
    else if negb (StatusCode res =? StatusNotFound)%Z then
      ret (Some (fmt_Errorf "인덱스 확인 응답 코드: %d" (OpInt (StatusCode res))))
    else
      let body := strings_NewReader indexMapping in
      do r' <- Do (Indices_Create indexName body);
      match r' with
      | inl err => ret (Some (fmt_Errorf "인덱스 생성 실패: %w" (OpError err)))
      | inr createRes =>
        if IsError createRes then
          ret (Some (fmt_Errorf "인덱스 생성 응답 에러: %s" (OpResponse createRes)))
        else ret None
      end
  end.

Definition upsertKeyword (req : upsertRequest) : M (option error) :=
  let keyword := TrimSpace (Keyword req) in
  if String.eqb keyword "" then ret (Some (errors_New "keyword가 비어 있음"))
  else
    let req :=
      if (Weight req =? 0)%Z
      then {| Keyword := Keyword req; Weight := 1; Meta := Meta req |}
      else req in
    let req :=
      match Meta req with
      | None => {| Keyword := Keyword req; Weight := Weight req; Meta := Some ∅ |}
      | Some _ => req
      end in
    let doc : gmap string any :=
      {[ "keyword" := AString keyword;
         "suggest" := AMap (Some {[ "input" := AStrings [keyword];
                                    "weight" := AInt (Weight req) ]});
         "meta" := AMap (Meta req) ]} in
    let payload : gmap string any :=
      {[ "doc" := AMap (Some doc);
         "doc_as_upsert" := ABool true ]} in
    match Marshal (AMap (Some payload)) with
    | None =>
      ret (Some (fmt_Errorf "payload 직렬화 실패: %w"
                            (OpError (lib_error "json: unsupported value"))))
    | Some body =>
      let updateReq := {| Index := indexName;
                          DocumentID := docID keyword;
                          UpdateBody := bytes_NewReader body |} in
      do r <- Do (Update updateReq);
      match r with
      | inl err => ret (Some (fmt_Errorf "업서트 요청 실패: %w" (OpError err)))
      | inr res =>
        if IsError res then
          ret (Some (fmt_Errorf "업서트 응답 에러: %s" (OpResponse res)))
        else ret None
      end
    end.

(** The anonymous struct types of [parsed] in [suggest]. *)
Record parsedOption := { Text : string }.
Record parsedEntry := { Options : list parsedOption }.
Record parsedBody := { Suggest : gmap string (list parsedEntry) }.

(** [json.NewDecoder(res.Body).Decode(&parsed)], struct by struct. *)
Definition decode_option : json -> parsedOption -> option parsedOption :=
  into_struct (fun k x t =>
    match field ["text"] k with
    | Some _ => (fun s => {| Text := s |}) <$> into_string x (Text t)
    | None => Some t
    end).

Definition decode_entry : json -> parsedEntry -> option parsedEntry :=
  into_struct (fun k x t =>
    match field ["options"] k with
    | Some _ =>
      (fun l => {| Options := l |})
        <$> into_slice decode_option {| Text := "" |} x (Options t)
    | None => Some t
    end).

Definition decode_group : json -> list parsedEntry -> option (list parsedEntry) :=
  into_slice decode_entry {| Options := [] |}.

Definition decode_parsed : json -> parsedBody -> option parsedBody :=
  into_struct (fun k x t =>
    match field ["suggest"] k with
    | Some _ =>
      (fun m => {| Suggest := m |}) <$> into_map_of decode_group [] x (Suggest t)
    | None => Some t
    end).

Definition suggest (q : string) : M (list string * option error) :=
  let query : gmap string any :=
    {[ "suggest" :=
         AMap (Some {[ "ac" :=
           AMap (Some {[ "prefix" := AString q;
                         "completion" :=
                           AMap (Some {[ "field" := AString "suggest";
                                         "skip_duplicates" := ABool true;
                                         "size" := AInt 10 ]}) ]}) ]}) ]} in
  match Marshal (AMap (Some query)) with
  | None =>
    ret ([], Some (fmt_Errorf "쿼리 직렬화 실패: %w"
                              (OpError (lib_error "json: unsupported value"))))
  | Some body =>
    do r <- Do (Search [indexName] (bytes_NewReader body));
    match r with
    | inl err => ret ([], Some (fmt_Errorf "검색 요청 실패: %w" (OpError err)))
    | inr res =>
      if IsError res then
        ret ([], Some (fmt_Errorf "검색 응답 에러: %s" (OpResponse res)))
      else
        match res.(esapi.Body) ≫= (fun j => decode_parsed j {| Suggest := ∅ |}) with
        | None =>
          ret ([], Some (fmt_Errorf "응답 파싱 실패: %w"
                                    (OpError (lib_error "json: cannot decode"))))
        | Some parsed =>
          let out :=
            flat_map (fun bucket => map Text (Options bucket))
                     (default [] (Suggest parsed !! "ac")) in
          ret (out, None)
        end
    end
  end.

(** What a handler leaves in its [http.ResponseWriter]: the status
    code, the [Content-Type] it sets if it sets one, and the body. *)
Inductive content : Type :=
| Empty
| Plain (text : string)
| Encoded (v : suggestResponse).

Record written := {
  Code : Z;
  ContentType : option string;
  Content : content
}.

(** [http.Error]: the message and a newline, as plain text under the
    given code. *)
Definition http_Error (msg : string) (code : Z) : written :=
  {| Code := code;
     ContentType := Some "text/plain; charset=utf-8";
     Content := Plain (msg +:+ String (ascii_of_nat 10) "") |}.

(** [writeJSON]: the encoder of a struct of strings has no failing
    case, and the status is the implicit 200. *)
Definition writeJSON (payload : suggestResponse) : written :=
  {| Code := StatusOK;
     ContentType := Some "application/json";
     Content := Encoded payload |}.

(** [json.NewDecoder(r.Body).Decode(&req)] into the zero value of
    [upsertRequest]. *)
Definition decode_upsertRequest : json -> upsertRequest -> option upsertRequest :=
  into_struct (fun k x t =>
    match field ["keyword"; "weight"; "meta"] k with
    | Some 0%nat =>
      (fun s => {| Keyword := s; Weight := Weight t; Meta := Meta t |})
        <$> into_string x (Keyword t)
    | Some 1%nat =>
      (fun n => {| Keyword := Keyword t; Weight := n; Meta := Meta t |})
        <$> into_int x (Weight t)
    | Some _ =>
      (fun m => {| Keyword := Keyword t; Weight := Weight t; Meta := m |})
        <$> into_map x (Meta t)
    | None => Some t
    end).

Definition Decode (r : Request) : M (option upsertRequest) :=
  do _ <- emit ReadBody;
  ret (r.(http.Body) ≫= (fun j =>
         decode_upsertRequest j {| Keyword := ""; Weight := 0; Meta := None |})).

(** The handlers registered in [main] for [/healthz], [/keywords] and
    [/suggest]. *)
Definition handleHealthz (r : Request) : M written :=
  ret {| Code := StatusOK; ContentType := None; Content := Plain "ok" |}.

Definition handleKeywords (r : Request) : M written :=
  if negb (String.eqb (Method r) MethodPost) then
    ret (http_Error "POST로 요청하세요" StatusMethodNotAllowed)
  else
    do d <- Decode r;
    match d with
    | None => ret (http_Error "잘못된 요청 본문" StatusBadRequest)
    | Some req =>
      do err <- upsertKeyword req;
      match err with
      | Some e =>
        do _ <- emit (LogPrintf "upsert 실패: %v" e);
        ret (http_Error "업서트 실패" StatusInternalServerError)
      | None =>
        ret {| Code := StatusCreated; ContentType := None; Content := Empty |}
      end
    end.

Definition handleSuggest (r : Request) : M written :=
  let q := TrimSpace (Get (Query r) "q") in
  if String.eqb q "" then
    ret (http_Error "q 파라미터가 필요합니다" StatusBadRequest)
  else
    do res <- suggest q;
    match res with
    | (_, Some e) =>
      do _ <- emit (LogPrintf "suggest 실패: %v" e);
      ret (http_Error "검색 실패" StatusInternalServerError)
    | (suggestions, None) =>
      ret (writeJSON {| Suggestions := suggestions |})
    end.

End Service.
End main.

(** * Specification *)

(** ** White space and letter case *)
Module keyword.
Import utf8 unicode strings.

(** The white-space runes, one by one. *)
Definition spaces : list Z :=
  [0x09; 0x0A; 0x0B; 0x0C; 0x0D; 0x20; 0x85; 0xA0; 0x1680;
   0x2000; 0x2001; 0x2002; 0x2003; 0x2004; 0x2005; 0x2006; 0x2007; 0x2008;
   0x2009; 0x200A; 0x2028; 0x2029; 0x202F; 0x205F; 0x3000].

(** A string made of white-space characters only (the empty one too). *)
Inductive white : list ascii -> Prop :=
| white_nil : white []
| white_cons r p : IsSpace r = true -> white p -> white (EncodeRune r ++ p).

(** A string that neither starts nor ends with a white-space character. *)
Definition trimmed (c : list ascii) : Prop :=
  IsSpace (DecodeRune c).1 = false /\ IsSpace (DecodeLastRune c).1 = false.

(** [utf8.ValidString], as a property: the string is a sequence of
    encodings of runes. *)
Inductive valid : list ascii -> Prop :=
| valid_nil : valid []
| valid_cons p r w :
    p <> [] -> DecodeRune p = (r, w) -> (r, w) <> (RuneError, 1%nat) ->
    valid (drop w p) -> valid p.

(** The string is empty or starts with a byte that starts a rune. *)
Definition starts (t : list ascii) : Prop :=
  match t with [] => True | a :: _ => RuneStart a = true end.

(** A capital letter of ASCII. *)
Definition isUpper (a : ascii) : bool := (65 <=? bv a) && (bv a <=? 90).

(** Two bytes that are equal, or the same ASCII letter in its two cases. *)
Definition case_variant (a b : ascii) : Prop :=
  a = b \/ (isUpper a = true /\ bv b = bv a + 32)
  \/ (isUpper b = true /\ bv a = bv b + 32).

Section Case.
Context `{CaseTable}.

(** Two strings with as many characters, equal one by one up to case:
    rune by rune they have the same lower case ([unicode.ToLower]). For
    ASCII letters that is [case_variant] on the bytes
    ([case_variant_same_letters] below). *)
Definition same_letters (c1 c2 : list ascii) : Prop :=
  Forall2 (fun a b => unicode.ToLower a = unicode.ToLower b)
          (runes c1) (runes c2).

(** Two strings that differ only in letter case or in the white space
    around them: each is a core between two runs of white space, and
    the cores are equal up to case. *)
Definition same_keyword (x y : string) : Prop :=
  exists l1 c1 r1 l2 c2 r2,
    bytes x = l1 ++ c1 ++ r1 /\ bytes y = l2 ++ c2 ++ r2
    /\ white l1 /\ white r1 /\ white l2 /\ white r2
    /\ trimmed c1 /\ trimmed c2 /\ same_letters c1 c2.
End Case.
End keyword.

(** ** What a call stores, what a response looks like *)
Module wire.
Import unicode json_lib esapi main.
#[local] Open Scope string_scope.

(** The member [k] of a value that is a map. *)
Definition member (k : string) (v : any) : option any :=
  match v with
  | AMap (Some m) => m !! k
  | _ => None
  end.

(** The member [k] of the document an update carries. *)
Definition doc_field (k : string) (u : UpdateRequest) : option any :=
  match UpdateBody u with
  | bytes_NewReader v => member "doc" v ≫= member k
  | strings_NewReader _ => None
  end.

(** A run of [upsertKeyword] whose only effect is the update [u]. *)
Definition sends `{CaseTable} `{JSONLib} `{Engine}
           (req : upsertRequest) (w : World) (u : UpdateRequest) : Prop :=
  trace (upsertKeyword req w).2 = (trace w ++ [Call (Update u)])%list.

(** The weight in the document an update carries. *)
Definition stored_weight (u : UpdateRequest) : option any :=
  doc_field "suggest" u ≫= member "weight".


(** The calls of the bootstrap and the status an answer carries. *)
Definition check : call := Indices_Exists [indexName].
Definition create : call :=
  Indices_Create indexName (strings_NewReader indexMapping).
Definition status (r : error + Response) : option Z :=
  match r with
  | inr res => Some (StatusCode res)
  | inl _ => None
  end.

(** The completion query for the prefix [q]: on the field [suggest],
    without duplicates, at most ten options, under the name [ac]. *)
Definition asked (q : string) : call :=
  Search [indexName]
    (bytes_NewReader
       (AMap (Some
          {[ "suggest" :=
               AMap (Some
                 {[ "ac" :=
                      AMap (Some
                        {[ "prefix" := AString q;
                           "completion" :=
                             AMap (Some
                               {[ "field" := AString "suggest";
                                  "skip_duplicates" := ABool true;
                                  "size" := AInt 10 ]}) ]}) ]}) ]}))).

(** No member of [ms] is stored into field number [i] of [upsertRequest]
    (0 for [keyword], 1 for [weight], 2 for [meta]). *)
Definition omitted `{JSONLib} (i : nat) (ms : list (string * json)) : Prop :=
  Forall (fun m => field ["keyword"; "weight"; "meta"] m.1 <> Some i) ms.

(** The update an accepted request leads to, field by field. *)
Definition update_of `{CaseTable} (req : upsertRequest) : UpdateRequest :=
  let keyword := strings.TrimSpace (Keyword req) in
  {| Index := indexName;
     DocumentID := docID keyword;
     UpdateBody :=
       bytes_NewReader
         (AMap (Some
            {[ "doc" :=
                 AMap (Some
                   {[ "keyword" := AString keyword;
                      "suggest" :=
                        AMap (Some
                          {[ "input" := AStrings [keyword];
                             "weight" :=
                               AInt (if (Weight req =? 0)%Z then 1 else Weight req) ]});
                      "meta" := AMap (Some (default ∅ (Meta req))) ]});
               "doc_as_upsert" := ABool true ]})) |}.

(** A request [upsertKeyword] accepts: its keyword is not empty once
    trimmed, and it can be encoded ([Meta] holds no NaN and no infinity;
    no request decoded from JSON does). *)
Definition accepted (req : upsertRequest) : Prop :=
  strings.TrimSpace (Keyword req) <> "" /\ marshals (AMap (Meta req)) = true.

Section Shapes.
Context `{JSONLib}.

(** No member of [ms] is stored into the field [name]. *)
Definition skipped (name : string) (ms : list (string * json)) : Prop :=
  Forall (fun m => field [name] m.1 = None) ms.

(** An object with one member for the field [name], of value [v]. *)
Definition holds (name : string) (v : json) (j : json) : Prop :=
  exists pre k post,
    j = JObject (pre ++ (k, v) :: post)%list
    /\ skipped name pre /\ is_Some (field [name] k) /\ skipped name post.

(** The response of the engine to the query of [suggest]: under
    [suggest], the one group [ac]; in it entries; in each entry
    [options]; in each option a [text]. Other members may come along at
    every level but that of the groups. [tss] are the texts, entry by
    entry. *)
Definition is_option (j : json) (t : string) : Prop :=
  holds "text" (JString t) j.

Definition is_entry (j : json) (ts : list string) : Prop :=
  exists items, holds "options" (JArray items) j /\ Forall2 is_option items ts.

Definition is_response (j : json) (tss : list (list string)) : Prop :=
  exists items,
    holds "suggest" (JObject [("ac", JArray items)]) j
    /\ Forall2 is_entry items tss.

(** Values of a JSON type the decoder rejects. *)
Definition no_string (j : json) : Prop :=
  match j with JNull | JString _ => False | _ => True end.
Definition no_array (j : json) : Prop :=
  match j with JNull | JArray _ => False | _ => True end.
Definition no_object (j : json) : Prop :=
  match j with JNull | JObject _ => False | _ => True end.

(** A member of the object [j] stored into the field [name] has a value
    satisfying [bad]. *)
Definition bad_member (name : string) (bad : json -> Prop) (j : json) : Prop :=
  exists ms k x, j = JObject ms /\ In (k, x) ms
                 /\ is_Some (field [name] k) /\ bad x.

Definition bad_element (bad : json -> Prop) (j : json) : Prop :=
  exists items x, j = JArray items /\ In x items /\ bad x.

(** A response that does not have the types of the expected structure:
    somewhere on the way [suggest] / group / entry / [options] / option /
    [text] stands a value of another JSON type. *)
Definition bad_option (j : json) : Prop :=
  no_object j \/ bad_member "text" no_string j.
Definition bad_options (j : json) : Prop :=
  no_array j \/ bad_element bad_option j.
Definition bad_entry (j : json) : Prop :=
  no_object j \/ bad_member "options" bad_options j.
Definition bad_group (j : json) : Prop :=
  no_array j \/ bad_element bad_entry j.
Definition bad_groups (j : json) : Prop :=
  no_object j \/ exists ms k x, j = JObject ms /\ In (k, x) ms /\ bad_group x.
Definition bad_response (j : json) : Prop :=
  no_object j \/ bad_member "suggest" bad_groups j.
End Shapes.
End wire.

(** ** A runtime and engines to run the service on examples *)
Module sample.
Import strings esapi main.
#[local] Open Scope string_scope.

(** Lower case in Latin-1: the capital letters from U+00C0 to U+00DE but
    the multiplication sign; other runes are left as they are. *)
#[export] Instance latin1 : unicode.CaseTable :=
  {| unicode.To_LowerCase r :=
       (if (0xC0 <=? r) && (r <=? 0xDE) && negb (r =? 0xD7) then r + 32 else r)%Z |}.

(** Member names folded by putting ASCII letters in upper case; the
    number literals known are [0] and [1]. *)
#[export] Instance ascii_names : JSONLib :=
  {| foldName s :=
       of_bytes (Map (fun r => if (97 <=? r) && (r <=? 122) then r - 32 else r)%Z
                     (bytes s));
     ParseFloat lit :=
       if String.eqb lit "0" then Some 0
       else if String.eqb lit "1" then Some 0x3FF0000000000000
       else None |}.

(** An engine that plays a script: every call gets the next answer. *)
#[export] Instance scripted : Engine :=
  {| ES := list (error + Response);
     perform _ s :=
       match s with
       | r :: s' => (r, s')
       | [] => (inl (lib_error "EOF"), [])
       end |}.

Definition start (script : list (error + Response)) : World :=
  {| engine := script; trace := [] |}.

Definition answer (code : Z) (body : option json) : error + Response :=
  inr {| StatusCode := code; Body := body |}.

(** Submissions. *)
Definition iphone : upsertRequest :=
  {| Keyword := "  iPhone 15 "; Weight := 0; Meta := None |}.
Definition iphone_again : upsertRequest :=
  {| Keyword := "IPHONE 15";
     Weight := 3;
     Meta := Some {[ "category" := AString "mobile" ]} |}.
Definition clearance : upsertRequest :=
  {| Keyword := "sale"; Weight := -5; Meta := None |}.

(** A response of the engine to the completion query, with the members
    the engine adds around the texts. *)
Definition completions : json :=
  JObject
    [("took", JNumber "3");
     ("timed_out", JBool false);
     ("suggest",
      JObject
        [("ac",
          JArray
            [JObject
               [("text", JString "iph");
                ("offset", JNumber "0");
                ("length", JNumber "3");
                ("options",
                 JArray
                   [JObject [("text", JString "iphone 15");
                             ("_index", JString "autocomplete");
                             ("_score", JNumber "3.0")];
                    JObject [("text", JString "iphone 14");
                             ("_index", JString "autocomplete");
                             ("_score", JNumber "1.0")]])]])])].

(** The answer of the engine to a creation that lost the race against
    another creator of the same index. *)
Definition already_exists : Response :=
  {| StatusCode := 400;
     Body := Some (JObject
       [("error", JObject [("type", JString "resource_already_exists_exception");
                           ("index", JString "autocomplete")]);
        ("status", JNumber "400")]) |}.
End sample.

(** ** The start of the service: [main] *)
Module startup.
Import unicode strings json_lib http esapi main.
#[local] Open Scope string_scope.

(** [os.Getenv]: the value of the variable, empty when it is not set. *)
Definition Getenv (env : gmap string string) (key : string) : string :=
  default "" (env !! key).

(** [elastic.Config], the fields that [main] sets. *)
Record Config := {
  Addresses : list string;
  Username : string;
  Password : string
}.

(** [elastic.NewClient] checks the configuration and makes no call; which
    configurations it refuses is the library's business. *)
Class ClientLib := { NewClient : Config -> option error }.

(** [http.Server], the fields that [main] sets; the timeout in seconds. *)
Record Server := { Addr : string; ReadHeaderTimeout : Z }.

(** How [main] goes on after the start: it gives up with [log.Fatalf], or
    it announces the port and the address of the engine with [log.Printf]
    and serves the three handlers with [srv.ListenAndServe]. What it does
    when the server stops is left out. *)
Inductive ending : Type :=
| Fatalf (format : string) (e : error)
| ListenAndServe (srv : Server) (port esURL : string).

Section Service.
Context `{Engine} `{ClientLib}.

Definition main (env : gmap string string) : M ending :=
  let esURL := TrimSpace (Getenv env "ELASTICSEARCH_URL") in
  let esURL := if String.eqb esURL "" then defaultESHost else esURL in
  match NewClient {| Addresses := [esURL];
                     Username := Getenv env "ELASTICSEARCH_USERNAME";
                     Password := Getenv env "ELASTICSEARCH_PASSWORD" |} with
  | Some err => ret (Fatalf "elasticsearch 초기화 실패: %v" err)
  | None =>
    do e <- ensureIndex;
    match e with
    | Some err => ret (Fatalf "인덱스 준비 실패: %v" err)
    | None =>
      let port := Getenv env "PORT" in
      let port := if String.eqb (TrimSpace port) "" then "8080" else port in
      let srv := {| Addr := ":" +:+ port; ReadHeaderTimeout := 3 |} in
      ret (ListenAndServe srv port esURL)
    end
  end.
End Service.
End startup.

(** ** More on what goes over the wire *)
Module forms.
Import unicode json_lib http esapi main wire startup.
#[local] Open Scope string_scope.

(** A digit of the lower-case hexadecimal notation. *)
Definition lower_hex (a : ascii) : Prop :=
  (48 <= bv a <= 57)%Z \/ (97 <= bv a <= 102)%Z.

(** The configuration of the client for the variables [env]: the one
    address of the engine, the trimmed [ELASTICSEARCH_URL] or else the
    local default, and the credentials as they are. *)
Definition config (env : gmap string string) : Config :=
  let url := strings.TrimSpace (Getenv env "ELASTICSEARCH_URL") in
  {| Addresses := [if String.eqb url "" then defaultESHost else url];
     Username := Getenv env "ELASTICSEARCH_USERNAME";
     Password := Getenv env "ELASTICSEARCH_PASSWORD" |}.

(** The flag [doc_as_upsert] in the body of an update. *)
Definition upsert_flag (u : UpdateRequest) : option any :=
  match UpdateBody u with
  | bytes_NewReader v => member "doc_as_upsert" v
  | strings_NewReader _ => None
  end.

(** The world once the body of a request has been read. *)
Definition read `{Engine} (w : World) : World :=
  {| engine := engine w; trace := trace w ++ [ReadBody] |}.

(** The world once [e] has been logged under [format]. *)
Definition logged `{Engine} (format : string) (e : error) (w : World) : World :=
  {| engine := engine w; trace := trace w ++ [LogPrintf format e] |}.

(** The texts of the last group named [name] among the groups [gs] of a
    response, none when there is no such group. *)
Definition last_group (name : string) (gs : list (string * list (list string)))
  : list (list string) :=
  foldl (fun acc g => if String.eqb g.1 name then g.2 else acc) [] gs.

Section Shapes.
Context `{JSONLib}.

(** An option of a response, strictly or loosely: with its [text], or with
    a [text] that is [null], or without one, or [null] itself; the text is
    then the empty string. *)
Definition loose_option (j : json) (t : string) : Prop :=
  is_option j t
  \/ (t = "" /\ (j = JNull \/ holds "text" JNull j
                 \/ exists ms, j = JObject ms /\ skipped "text" ms)).

(** An entry, strictly or loosely: with its [options], or with [options]
    that is [null], or without any, or [null] itself; no text then. *)
Definition loose_entry (j : json) (ts : list string) : Prop :=
  (exists items, holds "options" (JArray items) j /\ Forall2 loose_option items ts)
  \/ (ts = [] /\ (j = JNull \/ holds "options" JNull j
                  \/ exists ms, j = JObject ms /\ skipped "options" ms)).

(** A group: an array of entries, or [null]. *)
Definition is_group (j : json) (tss : list (list string)) : Prop :=
  (exists items, j = JArray items /\ Forall2 loose_entry items tss)
  \/ (j = JNull /\ tss = []).

(** A response with the groups [gs] under [suggest], in the order of the
    text; without a [suggest], or with one that is [null], there are no
    groups. *)
Definition has_groups (j : json) (gs : list (string * list (list string))) : Prop :=
  (exists ms, holds "suggest" (JObject ms) j
              /\ Forall2 (fun m g => m.1 = g.1 /\ is_group m.2 g.2) ms gs)
  \/ (gs = [] /\ (j = JNull \/ holds "suggest" JNull j
                  \/ exists ms, j = JObject ms /\ skipped "suggest" ms)).

(** A value that does not decode into an [int]: not a number, or a number
    that is no integer of 64 bits. *)
Definition no_int (j : json) : Prop :=
  match j with
  | JNull => False
  | JNumber lit => ParseInt lit = None
  | _ => True
  end.

(** A body of a request to [/keywords] that has not the types of
    [upsertRequest]: it is no object, or its [keyword] is no string, or its
    [weight] no integer, or its [meta] no object. *)
Definition bad_body (j : json) : Prop :=
  no_object j
  \/ exists ms k x,
       j = JObject ms /\ In (k, x) ms
       /\ ((field ["keyword"; "weight"; "meta"] k = Some 0%nat /\ no_string x)
           \/ (field ["keyword"; "weight"; "meta"] k = Some 1%nat /\ no_int x)
           \/ (field ["keyword"; "weight"; "meta"] k = Some 2%nat /\ no_object x)).
End Shapes.

Section Runs.
Context `{CaseTable} `{JSONLib} `{Engine}.

(** The answer of the engine to the update of a request. *)
Definition updated (req : upsertRequest) (w : World) : (error + Response) * ES :=
  perform (Update (update_of req)) (engine w).

(** The answer of the engine to the query for [q]. *)
Definition searched (q : string) (w : World) : (error + Response) * ES :=
  perform (asked q) (engine w).

(** The texts [suggest] takes out of a decoded body. *)
Definition texts (parsed : parsedBody) : list string :=
  flat_map (fun bucket => map Text (Options bucket))
           (default [] (Suggest parsed !! "ac")).

(** The decoded form of the texts of a group, entry by entry. *)
Definition entries (tss : list (list string)) : list parsedEntry :=
  map (fun ts => {| Options := map Build_parsedOption ts |}) tss.

(** What the body of a request to [/keywords] decodes to. *)
Definition decoded (r : Request) : option upsertRequest :=
  http.Body r ≫= (fun j =>
    decode_upsertRequest j {| Keyword := ""; Weight := 0; Meta := None |}).
End Runs.
End forms.

(** ** More examples *)
Module cases.
Import strings http esapi main sample startup.
#[local] Open Scope string_scope.

(** A client that refuses the addresses that are no HTTP URL. *)
#[export] Instance http_only : ClientLib :=
  {| NewClient cfg :=
       if forallb (String.prefix "http") (Addresses cfg) then None
       else Some (lib_error "cannot parse url") |}.

(** Variables of the environment: an address with white space around it
    and a port with a space before it. *)
Definition staging : gmap string string :=
  {[ "ELASTICSEARCH_URL" := " http://es:9200 "; "PORT" := " 9090" ]}.

(** Requests. *)
Definition post (body : json) : Request :=
  {| Method := "POST"; Query := ∅; http.Body := Some body |}.
Definition get_suggest (q : string) : Request :=
  {| Method := "GET"; Query := {[ "q" := [q] ]}; http.Body := None |}.
Definition post_iphone : Request :=
  post (JObject [("keyword", JString "  iPhone 15 ")]).
Definition post_weight_only : Request :=
  post (JObject [("weight", JNumber "3")]).
Definition post_fraction : Request :=
  post (JObject [("keyword", JString "tv"); ("weight", JNumber "1.5")]).
Definition tv_ranked : upsertRequest :=
  {| Keyword := "tv";
     Weight := 0;
     Meta := Some {[ "rank" := AFloat64 0x3FF0000000000000;
                     "tags" := ASlice [AString "new"; ANil] ]} |}.
Definition post_meta : Request :=
  post (JObject [("keyword", JString "tv");
                 ("meta", JObject [("rank", JNumber "1");
                                   ("tags", JArray [JString "new"; JNull])])]).

(** A submission with a NaN in its meta. *)
Definition not_a_number : upsertRequest :=
  {| Keyword := "sale";
     Weight := 2;
     Meta := Some {[ "discount" := AFloat64 0x7FF8000000000000 ]} |}.

(** A response with a group of another name before the group [ac]; in
    [ac], an entry whose options are a text, an option without text and
    [null], and an entry whose [options] is [null]. *)
Definition two_groups : json :=
  JObject
    [("took", JNumber "2");
     ("suggest",
      JObject
        [("brands", JArray [JObject [("options",
                                      JArray [JObject [("text", JString "apple")]])]]);
         ("ac",
          JArray
            [JObject [("options",
                       JArray [JObject [("text", JString "iphone 15")];
                               JObject [("_score", JNumber "1.0")];
                               JNull])];
             JObject [("options", JNull)]])])].
End cases.

(** * Properties *)

(** ** Bytes and runes *)
Module utf8_facts.
Import utf8 unicode keyword.

Lemma bytes_of_bytes p : bytes (of_bytes p) = p.
Proof. apply list_ascii_of_string_of_list_ascii. Qed.

Lemma of_bytes_bytes s : of_bytes (bytes s) = s.
Proof. apply string_of_list_ascii_of_string. Qed.

Lemma bytes_empty s : bytes s = [] -> s = ""%string.
Proof. by destruct s. Qed.

(** A byte starts a rune unless it lies in the range of the continuation
    bytes. *)
Lemma RuneStart_spec a :
  RuneStart a = negb ((0x80 <=? bv a) && (bv a <=? 0xBF)).
Proof. destruct a as [[] [] [] [] [] [] [] []]; reflexivity. Qed.

Lemma first_range s0 sz lo hi :
  first s0 = Some (sz, lo, hi) -> 0x80 <= lo /\ hi <= 0xBF.
Proof.
  unfold first, locb, hicb.
  repeat match goal with |- context [if ?b then _ else _] => destruct b end;
    intros [= <- <- <-]; lia.
Qed.

Lemma outside_start a lo hi :
  RuneStart a = true -> 0x80 <= lo -> hi <= 0xBF -> outside lo hi (bv a) = true.
Proof.
  rewrite RuneStart_spec. unfold outside. intros Hs Hlo Hhi.
  apply negb_true_iff, andb_false_iff in Hs.
  apply orb_true_iff. destruct Hs as [Hs | Hs]; apply Z.leb_gt in Hs.
  - left. apply Z.ltb_lt. lia.
  - right. apply Z.ltb_lt. lia.
Qed.

(** Decoding the first rune of a string does not look past the start of
    the next rune. *)
Lemma DecodeRune_app_start p t :
  p <> [] -> starts t -> DecodeRune (p ++ t) = DecodeRune p.
Proof.
  intros Hp Ht.
  destruct p as [|a0 p]; [done|]. simpl.
  destruct (bv a0 <? RuneSelf); [done|].
  destruct (first (bv a0)) as [[[sz lo] hi]|] eqn:Hf; [|done].
  apply first_range in Hf as [Hlo Hhi].
  assert (0x80 <= locb /\ hicb <= 0xBF) as [? ?] by (unfold locb, hicb; lia).
  destruct p as [|a1 p]; simpl.
  { destruct t as [|b t]; [done|]. simpl in Ht. by rewrite outside_start. }
  destruct (outside lo hi (bv a1)); [done|].
  destruct (sz <=? 2)%nat; [done|].
  destruct p as [|a2 p]; simpl.
  { destruct t as [|b t]; [done|]. simpl in Ht. by rewrite outside_start. }
  destruct (outside locb hicb (bv a2)); [done|].
  destruct (sz <=? 3)%nat; [done|].
  destruct p as [|a3 p]; simpl; [|done].
  destruct t as [|b t]; [done|]. simpl in Ht. by rewrite outside_start.
Qed.

(** A white-space rune at the start of a string is there whatever
    follows. *)
Lemma DecodeRune_app_space p t r w :
  DecodeRune p = (r, w) -> IsSpace r = true -> DecodeRune (p ++ t) = (r, w).
Proof.
  intros Hd Hr.
  assert (forall n, (RuneError, n) <> (r, w)) as Hne.
  { intros n [= <- _]. discriminate Hr. }
  revert Hd. destruct p as [|a0 p]; simpl; [intros E; by apply Hne in E|].
  destruct (bv a0 <? RuneSelf); [done|].
  destruct (first (bv a0)) as [[[sz lo] hi]|]; [|done].
  destruct p as [|a1 p]; simpl; [intros E; by apply Hne in E|].
  destruct (outside lo hi (bv a1)); [done|].
  destruct (sz <=? 2)%nat; [done|].
  destruct p as [|a2 p]; simpl; [intros E; by apply Hne in E|].
  destruct (outside locb hicb (bv a2)); [done|].
  destruct (sz <=? 3)%nat; [done|].
  destruct p as [|a3 p]; simpl; [intros E; by apply Hne in E|].
  done.
Qed.

Lemma IsSpace_inv r : IsSpace r = true -> In r spaces.
Proof.
  unfold IsSpace, MaxLatin1, spaces. simpl.
  destruct ((0 <=? r) && (r <=? 255)) eqn:E; intros H;
    repeat (apply orb_true_iff in H as [H | H]);
    try (apply Z.eqb_eq in H; subst r; tauto).
  apply andb_true_iff in H as [H1 H2].
  apply Z.leb_le in H1, H2.
  assert (r = 0x2000 \/ r = 0x2001 \/ r = 0x2002 \/ r = 0x2003 \/ r = 0x2004
          \/ r = 0x2005 \/ r = 0x2006 \/ r = 0x2007 \/ r = 0x2008
          \/ r = 0x2009 \/ r = 0x200A) as Hr by lia.
  repeat destruct Hr as [-> | Hr]; try subst r; tauto.
Qed.

Lemma IsSpace_spaces r : In r spaces -> IsSpace r = true.
Proof.
  unfold spaces. simpl. intros Hr.
  repeat (destruct Hr as [<- | Hr]; [reflexivity|]). contradiction.
Qed.

(** *** Encoding what was decoded *)

Lemma byte_bv a : byte (bv a) = a.
Proof. destruct a as [[] [] [] [] [] [] [] []]; reflexivity. Qed.

Lemma bv_range a : 0 <= bv a < 256.
Proof. destruct a as [[] [] [] [] [] [] [] []]; vm_compute; split; congruence. Qed.

Lemma land_low x k : 0 <= k -> Z.land x (Z.ones k) = x mod 2 ^ k.
Proof. apply Z.land_ones. Qed.

Lemma lor_high x y k :
  0 <= k -> 0 <= y < 2 ^ k -> Z.lor (x * 2 ^ k) y = x * 2 ^ k + y.
Proof.
  intros Hk Hy. rewrite <- Z.add_lor_land.
  assert (Z.land (x * 2 ^ k) y = 0) as ->; [|lia].
  apply Z.bits_inj'. intros n Hn. rewrite Z.land_spec, Z.bits_0.
  destruct (Z.lt_ge_cases n k) as [Hlt | Hge].
  - by rewrite Z.mul_pow2_bits_low.
  - destruct (Z.eq_dec y 0) as [-> | Hy0]; [by rewrite Z.bits_0, andb_false_r|].
    rewrite (Z.bits_above_log2 y n), andb_false_r; [done|lia|].
    apply Z.log2_lt_pow2; [lia|].
    apply Z.lt_le_trans with (2 ^ k); [lia|]. apply Z.pow_le_mono_r; lia.
Qed.

Lemma lor_tag t v k :
  0 <= k -> 0 <= v < 2 ^ k -> t mod 2 ^ k = 0 -> Z.lor t v = t + v.
Proof.
  intros Hk Hv Ht.
  rewrite (Z.div_mod t (2 ^ k)) at 1 2 by lia. rewrite Ht, Z.add_0_r.
  rewrite (Z.mul_comm (2 ^ k)). by apply lor_high.
Qed.

Lemma first_cases s0 sz lo hi :
  first s0 = Some (sz, lo, hi) ->
  (sz = 2%nat /\ 0xC2 <= s0 < 0xE0 /\ lo = 0x80 /\ hi = 0xBF)
  \/ (sz = 3%nat /\ 0xE0 <= s0 < 0xF0 /\ 0x80 <= lo /\ hi <= 0xBF
      /\ (s0 = 0xE0 -> lo = 0xA0) /\ (s0 = 0xED -> hi = 0x9F))
  \/ (sz = 4%nat /\ 0xF0 <= s0 <= 0xF4 /\ 0x80 <= lo /\ hi <= 0xBF
      /\ (s0 = 0xF0 -> lo = 0x90) /\ (s0 = 0xF4 -> hi = 0x8F)).
Proof.
  unfold first, locb, hicb.
  repeat match goal with
         | |- context [if ?a <? ?b then _ else _] => destruct (Z.ltb_spec a b)
         | |- context [if ?a =? ?b then _ else _] => destruct (Z.eqb_spec a b)
         end; intros [= <- <- <-]; lia.
Qed.

Lemma outside_false lo hi b : outside lo hi b = false -> lo <= b <= hi.
Proof.
  unfold outside. intros H. apply orb_false_iff in H as [H1 H2].
  apply Z.ltb_ge in H1, H2. lia.
Qed.

Lemma lor_high6 x y : 0 <= y < 64 -> Z.lor (x * 64) y = x * 64 + y.
Proof. intros Hy. by apply (lor_high x y 6). Qed.

Lemma lor_high12 x y : 0 <= y < 4096 -> Z.lor (x * 4096) y = x * 4096 + y.
Proof. intros Hy. by apply (lor_high x y 12). Qed.

Lemma lor_high18 x y : 0 <= y < 262144 -> Z.lor (x * 262144) y = x * 262144 + y.
Proof. intros Hy. by apply (lor_high x y 18). Qed.

Ltac dlia := Z.to_euclidean_division_equations; lia.

Ltac to_arith :=
  change 0x1F with (Z.ones 5) in *; change 0x0F with (Z.ones 4) in *;
  change 0x07 with (Z.ones 3) in *; change 0x3F with (Z.ones 6) in *;
  rewrite ?Z.land_ones, ?Z.shiftl_mul_pow2, ?Z.shiftr_div_pow2 by done;
  change (2 ^ 3) with 8 in *; change (2 ^ 4) with 16 in *;
  change (2 ^ 5) with 32 in *; change (2 ^ 6) with 64 in *;
  change (2 ^ 12) with 4096 in *; change (2 ^ 18) with 262144 in *.

Lemma decode2_value s0 s1 :
  0xC2 <= s0 < 0xE0 -> 0x80 <= s1 <= 0xBF ->
  Z.lor (Z.shiftl (Z.land s0 mask2) 6) (Z.land s1 maskx)
  = (s0 - 0xC0) * 64 + (s1 - 0x80).
Proof.
  intros H0 H1. unfold mask2, maskx. to_arith.
  rewrite lor_high6 by dlia. dlia.
Qed.

Lemma decode3_value s0 s1 s2 :
  0xE0 <= s0 < 0xF0 -> 0x80 <= s1 <= 0xBF -> 0x80 <= s2 <= 0xBF ->
  Z.lor (Z.lor (Z.shiftl (Z.land s0 mask3) 12) (Z.shiftl (Z.land s1 maskx) 6))
        (Z.land s2 maskx)
  = (s0 - 0xE0) * 4096 + (s1 - 0x80) * 64 + (s2 - 0x80).
Proof.
  intros H0 H1 H2. unfold mask3, maskx. to_arith.
  rewrite lor_high12 by dlia.
  replace (s0 mod 16 * 4096 + s1 mod 64 * 64)
    with ((s0 mod 16 * 64 + s1 mod 64) * 64) by dlia.
  rewrite lor_high6 by dlia. dlia.
Qed.

Lemma decode4_value s0 s1 s2 s3 :
  0xF0 <= s0 <= 0xF4 -> 0x80 <= s1 <= 0xBF -> 0x80 <= s2 <= 0xBF ->
  0x80 <= s3 <= 0xBF ->
  Z.lor (Z.lor (Z.lor (Z.shiftl (Z.land s0 mask4) 18)
                      (Z.shiftl (Z.land s1 maskx) 12))
               (Z.shiftl (Z.land s2 maskx) 6))
        (Z.land s3 maskx)
  = (s0 - 0xF0) * 262144 + (s1 - 0x80) * 4096 + (s2 - 0x80) * 64 + (s3 - 0x80).
Proof.
  intros H0 H1 H2 H3. unfold mask4, maskx. to_arith.
  rewrite lor_high18 by dlia.
  replace (s0 mod 8 * 262144 + s1 mod 64 * 4096)
    with ((s0 mod 8 * 64 + s1 mod 64) * 4096) by dlia.
  rewrite lor_high12 by dlia.
  replace ((s0 mod 8 * 64 + s1 mod 64) * 4096 + s2 mod 64 * 64)
    with (((s0 mod 8 * 64 + s1 mod 64) * 64 + s2 mod 64) * 64) by dlia.
  rewrite lor_high6 by dlia. dlia.
Qed.

(** The bytes of an encoding, from the value of the rune. *)
Lemma lead_byte t v r d k :
  Z.shiftr r d = v -> 0 <= k -> 0 <= v < 2 ^ k -> t mod 2 ^ k = 0 ->
  Z.lor t (Z.shiftr r d) = t + v.
Proof. intros -> Hk Hv Ht. by apply (lor_tag _ _ k). Qed.

Lemma cont_byte x v :
  x mod 64 = v -> Z.lor tx (Z.land x maskx) = 0x80 + v.
Proof.
  intros <-. unfold tx, maskx. change 0x3F with (Z.ones 6).
  rewrite Z.land_ones by lia.
  apply (lor_tag _ _ 6); [lia| |done].
  change (2 ^ 6) with 64. apply Z.mod_pos_bound. dlia.
Qed.

Lemma shr_value r d q : 0 <= d -> r / 2 ^ d = q -> Z.shiftr r d = q.
Proof. intros Hd <-. by apply Z.shiftr_div_pow2. Qed.

Lemma byte_of a v : v = bv a -> a = byte v.
Proof. intros ->. symmetry. apply byte_bv. Qed.

Lemma EncodeRune_1 r : 0 <= r <= 0x7F -> EncodeRune r = [byte r].
Proof.
  intros Hr. unfold EncodeRune, rune1Max.
  destruct (Z.leb_spec 0 r), (Z.leb_spec r 0x7F); (done || lia).
Qed.

Lemma EncodeRune_2 r :
  0x80 <= r <= 0x7FF ->
  EncodeRune r = [byte (Z.lor t2 (Z.shiftr r 6)); byte (Z.lor tx (Z.land r maskx))].
Proof.
  intros Hr. unfold EncodeRune, rune1Max, rune2Max.
  destruct (Z.leb_spec 0 r), (Z.leb_spec r 0x7F), (Z.leb_spec r 0x7FF); (done || lia).
Qed.

Lemma EncodeRune_3 r :
  0x800 <= r <= 0xFFFF -> ~ (0xD800 <= r <= 0xDFFF) -> EncodeRune r = encode3 r.
Proof.
  intros Hr Hs.
  unfold EncodeRune, rune1Max, rune2Max, rune3Max, MaxRune, surrogateMin, surrogateMax.
  destruct (Z.leb_spec 0 r), (Z.leb_spec r 0x7F), (Z.leb_spec r 0x7FF),
    (Z.ltb_spec r 0), (Z.ltb_spec 0x10FFFF r), (Z.leb_spec 0xD800 r),
    (Z.leb_spec r 0xDFFF), (Z.leb_spec r 0xFFFF); cbn [andb orb]; (done || lia).
Qed.

Lemma EncodeRune_4 r :
  0x10000 <= r <= 0x10FFFF ->
  EncodeRune r
  = [byte (Z.lor t4 (Z.shiftr r 18));
     byte (Z.lor tx (Z.land (Z.shiftr r 12) maskx));
     byte (Z.lor tx (Z.land (Z.shiftr r 6) maskx));
     byte (Z.lor tx (Z.land r maskx))].
Proof.
  intros Hr.
  unfold EncodeRune, rune1Max, rune2Max, rune3Max, MaxRune, surrogateMin, surrogateMax.
  destruct (Z.leb_spec 0 r), (Z.leb_spec r 0x7F), (Z.leb_spec r 0x7FF),
    (Z.ltb_spec r 0), (Z.ltb_spec 0x10FFFF r), (Z.leb_spec 0xD800 r),
    (Z.leb_spec r 0xDFFF), (Z.leb_spec r 0xFFFF); cbn [andb orb]; (done || lia).
Qed.

(** The encoding of a decoded rune is the bytes it was decoded from, unless
    these were no valid encoding. *)
Lemma EncodeRune_DecodeRune p r w :
  DecodeRune p = (r, w) -> (r, w) <> (RuneError, 1%nat) -> p <> [] ->
  take w p = EncodeRune r.
Proof.
  intros Hd Hv Hp. destruct p as [|a0 p]; [done|]. clear Hp.
  pose proof (bv_range a0) as R0. revert Hd. unfold DecodeRune, RuneSelf.
  destruct (Z.ltb_spec (bv a0) 0x80) as [Hascii | Hhigh].
  { intros [= <- <-]. rewrite EncodeRune_1 by lia. by rewrite byte_bv. }
  destruct (first (bv a0)) as [[[sz lo] hi]|] eqn:Hf; [|by intros [= <- <-]].
  apply first_cases in Hf.
  destruct p as [|a1 p]; [by intros [= <- <-]|].
  destruct (outside lo hi (bv a1)) eqn:O1; [by intros [= <- <-]|].
  apply outside_false in O1.
  destruct Hf as [(-> & H0 & -> & ->) | [(-> & H0 & Hlo & Hhi & HE0 & HED)
                                        | (-> & H0 & Hlo & Hhi & HF0 & HF4)]];
    cbn [Nat.leb].
  - intros [= <- <-]. rewrite decode2_value by lia.
    rewrite EncodeRune_2 by lia. cbn [take]. f_equal; [|f_equal].
    + apply byte_of. rewrite (lead_byte t2 (bv a0 - 0xC0) _ 6 5); unfold t2;
        [lia | apply shr_value; [lia | change (2 ^ 6) with 64; dlia]
         | lia | change (2 ^ 5) with 32; lia | done].
    + apply byte_of. rewrite (cont_byte _ (bv a1 - 0x80)); [lia | dlia].
  - destruct p as [|a2 p]; [by intros [= <- <-]|].
    destruct (outside locb hicb (bv a2)) eqn:O2; [by intros [= <- <-]|].
    apply outside_false in O2. unfold locb, hicb in O2.
    intros [= <- <-]. rewrite decode3_value by lia.
    rewrite EncodeRune_3 by lia. unfold encode3. cbn [take].
    f_equal; [|f_equal; [|f_equal]].
    + apply byte_of. rewrite (lead_byte t3 (bv a0 - 0xE0) _ 12 4); unfold t3;
        [lia | apply shr_value; [lia | change (2 ^ 12) with 4096; dlia]
         | lia | change (2 ^ 4) with 16; lia | done].
    + apply byte_of. rewrite (cont_byte _ (bv a1 - 0x80)); [lia|].
      rewrite Z.shiftr_div_pow2 by lia. change (2 ^ 6) with 64. dlia.
    + apply byte_of. rewrite (cont_byte _ (bv a2 - 0x80)); [lia | dlia].
  - destruct p as [|a2 p]; [by intros [= <- <-]|].
    destruct (outside locb hicb (bv a2)) eqn:O2; [by intros [= <- <-]|].
    apply outside_false in O2. unfold locb, hicb in O2.
    destruct p as [|a3 p]; [by intros [= <- <-]|].
    destruct (outside locb hicb (bv a3)) eqn:O3; [by intros [= <- <-]|].
    apply outside_false in O3. unfold locb, hicb in O3.
    intros [= <- <-]. rewrite decode4_value by lia.
    rewrite EncodeRune_4 by lia. cbn [take].
    f_equal; [|f_equal; [|f_equal; [|f_equal]]].
    + apply byte_of. rewrite (lead_byte t4 (bv a0 - 0xF0) _ 18 3); unfold t4;
        [lia | apply shr_value; [lia | change (2 ^ 18) with 262144; dlia]
         | lia | change (2 ^ 3) with 8; lia | done].
    + apply byte_of. rewrite (cont_byte _ (bv a1 - 0x80)); [lia|].
      rewrite Z.shiftr_div_pow2 by lia. change (2 ^ 12) with 4096. dlia.
    + apply byte_of. rewrite (cont_byte _ (bv a2 - 0x80)); [lia|].
      rewrite Z.shiftr_div_pow2 by lia. change (2 ^ 6) with 64. dlia.
    + apply byte_of. rewrite (cont_byte _ (bv a3 - 0x80)); [lia | dlia].
Qed.

End utf8_facts.

(** ** Trimming *)
Module trim_facts.
Import utf8 unicode strings keyword utf8_facts.

Ltac each_space H :=
  apply IsSpace_inv in H; unfold spaces in H; simpl in H;
  repeat (destruct H as [<- | H]); [.. | contradiction].

Lemma trimLeft_space r p :
  IsSpace r = true -> trimLeft (EncodeRune r ++ p) = trimLeft p.
Proof. intros H. each_space H; reflexivity. Qed.

Lemma trimRight_space r q :
  IsSpace r = true ->
  trimRight_from 0 (rev (EncodeRune r) ++ q) = trimRight_from 0 q.
Proof. intros H. each_space H; reflexivity. Qed.

Lemma EncodeRune_space_starts r p :
  IsSpace r = true -> starts (EncodeRune r ++ p).
Proof. intros H. each_space H; done. Qed.

Lemma white_starts p : white p -> starts p.
Proof. destruct 1 as [|r p Hr _]; [done|]. by apply EncodeRune_space_starts. Qed.

Lemma white_app l r : white l -> white r -> white (l ++ r).
Proof.
  induction 1 as [|s l Hs _ IH]; intros Hr; [done|].
  rewrite <- app_assoc. constructor; auto.
Qed.

Lemma trimLeft_white l p : white l -> trimLeft (l ++ p) = trimLeft p.
Proof.
  induction 1 as [|r l Hr _ IH]; [done|].
  by rewrite <- app_assoc, trimLeft_space.
Qed.

Lemma trimLeft_fixed p : IsSpace (DecodeRune p).1 = false -> trimLeft p = p.
Proof.
  intros H. destruct p as [|a p]; [done|].
  unfold trimLeft. cbn [trimLeft_from].
  destruct (DecodeRune (a :: p)) as [r w]. simpl in H. by rewrite H.
Qed.

Lemma trimRight_from_fixed q :
  IsSpace (DecodeLastRune_rev q).1 = false -> trimRight_from 0 q = q.
Proof.
  intros H. destruct q as [|a q]; [done|].
  cbn [trimRight_from].
  destruct (DecodeLastRune_rev (a :: q)) as [r w]. simpl in H. by rewrite H.
Qed.

Lemma trimRight_fixed p : IsSpace (DecodeLastRune p).1 = false -> trimRight p = p.
Proof.
  intros H. unfold trimRight. by rewrite trimRight_from_fixed, rev_involutive.
Qed.

Lemma trimRight_white r : white r -> forall p, trimRight (p ++ r) = trimRight p.
Proof.
  induction 1 as [|s r Hs _ IH]; intros p.
  - by rewrite app_nil_r.
  - rewrite app_assoc, IH. unfold trimRight.
    by rewrite rev_app_distr, trimRight_space.
Qed.

(** Trimming removes the white space around a core and nothing else. *)
Lemma trim_core l c r :
  white l -> white r -> trimmed c -> trimRight (trimLeft (l ++ c ++ r)) = c.
Proof.
  intros Hl Hr [Hc1 Hc2]. rewrite trimLeft_white by done.
  destruct c as [|a c].
  - simpl. rewrite <- (app_nil_r r), trimLeft_white by done. done.
  - rewrite trimLeft_fixed.
    + rewrite trimRight_white by done. by apply trimRight_fixed.
    + rewrite DecodeRune_app_start; auto using white_starts.
Qed.

(** What trimming returns has no white space left at the trimmed end. *)
Lemma trimLeft_from_head k p :
  IsSpace (DecodeRune (trimLeft_from k p)).1 = false.
Proof.
  revert k. induction p as [|a p IH]; intros k; [done|].
  cbn [trimLeft_from]. destruct k as [|k]; [|apply IH].
  destruct (DecodeRune (a :: p)) as [r w] eqn:E.
  destruct (IsSpace r) eqn:Hr; [apply IH|]. by rewrite E.
Qed.

Lemma trimRight_from_head k q :
  IsSpace (DecodeLastRune_rev (trimRight_from k q)).1 = false.
Proof.
  revert k. induction q as [|a q IH]; intros k; [done|].
  cbn [trimRight_from]. destruct k as [|k]; [|apply IH].
  destruct (DecodeLastRune_rev (a :: q)) as [r w] eqn:E.
  destruct (IsSpace r) eqn:Hr; [apply IH|]. by rewrite E.
Qed.

Lemma trimRight_from_suffix k q : exists pre, q = pre ++ trimRight_from k q.
Proof.
  revert k. induction q as [|a q IH]; intros k; [by exists []|].
  cbn [trimRight_from]. destruct k as [|k].
  - destruct (DecodeLastRune_rev (a :: q)) as [r w].
    destruct (IsSpace r); [|by exists []].
    destruct (IH (Nat.pred w)) as [pre E]. exists (a :: pre). simpl. by rewrite <- E.
  - destruct (IH k) as [pre E]. exists (a :: pre). simpl. by rewrite <- E.
Qed.

Lemma trimRight_prefix p : exists suf, p = trimRight p ++ suf.
Proof.
  unfold trimRight. destruct (trimRight_from_suffix 0 (rev p)) as [pre E].
  exists (rev pre). rewrite <- rev_app_distr, <- E. by rewrite rev_involutive.
Qed.

(** Trimming on the right does not uncover white space on the left. *)
Lemma trimRight_keeps_head p :
  IsSpace (DecodeRune p).1 = false ->
  IsSpace (DecodeRune (trimRight p)).1 = false.
Proof.
  intros H. destruct (trimRight_prefix p) as [suf E].
  destruct (DecodeRune (trimRight p)) as [r w] eqn:Ed. simpl.
  destruct (IsSpace r) eqn:Hr; [|done].
  rewrite E, (DecodeRune_app_space _ suf _ _ Ed Hr) in H. simpl in H. congruence.
Qed.

Lemma trim_trimmed p : trimmed (trimRight (trimLeft p)).
Proof.
  split.
  - apply trimRight_keeps_head, trimLeft_from_head.
  - unfold DecodeLastRune, trimRight. rewrite rev_involutive.
    apply trimRight_from_head.
Qed.

Lemma trim_fixed c : trimmed c -> trimRight (trimLeft c) = c.
Proof.
  intros Hc. pose proof (trim_core [] c [] white_nil white_nil Hc) as E.
  by rewrite app_nil_r in E.
Qed.

Lemma trim_white p : white p -> trimRight (trimLeft p) = [].
Proof.
  intros Hp.
  assert (trimmed []) as Ht by (split; reflexivity).
  pose proof (trim_core p [] [] Hp white_nil Ht) as E.
  by rewrite app_nil_r in E.
Qed.

(** [TrimSpace] of what [TrimSpace] returns changes nothing. *)
Lemma TrimSpace_idempotent s : TrimSpace (TrimSpace s) = TrimSpace s.
Proof.
  unfold TrimSpace. rewrite bytes_of_bytes. f_equal.
  apply trim_fixed, trim_trimmed.
Qed.

Lemma TrimSpace_core s l c r :
  bytes s = l ++ c ++ r -> white l -> white r -> trimmed c ->
  TrimSpace s = of_bytes c.
Proof. intros E Hl Hr Hc. unfold TrimSpace. by rewrite E, trim_core. Qed.

(** A string of white space is trimmed to the empty string. *)
Lemma TrimSpace_white s : white (bytes s) -> TrimSpace s = ""%string.
Proof. intros Hs. unfold TrimSpace. by rewrite trim_white. Qed.

(** Strings equal up to case have the same lower-case form. *)
Lemma ToLower_same_letters `{CaseTable} c1 c2 :
  same_letters c1 c2 -> ToLower (of_bytes c1) = ToLower (of_bytes c2).
Proof.
  unfold ToLower, Map, same_letters. rewrite !bytes_of_bytes. intros Hc. f_equal.
  induction Hc as [|a b la lb Hab _ IH]; [done|]. simpl. by rewrite Hab, IH.
Qed.

(** Shows that a concrete string is white space, rune by rune. *)
Ltac white_space :=
  repeat first
    [ exact white_nil
    | match goal with
      | |- white ?l =>
        let r := eval vm_compute in (utf8.DecodeRune l).1 in
        let w := eval vm_compute in (utf8.DecodeRune l).2 in
        let rest := eval vm_compute in (drop w l) in
        change (white (utf8.EncodeRune r ++ rest));
        apply white_cons; [reflexivity|]
      end ].

(** *** What trimming removes *)

Lemma DecodeRune_pos a p : (1 <= (DecodeRune (a :: p)).2)%nat.
Proof.
  unfold DecodeRune.
  repeat match goal with
         | |- context [if ?b then _ else _] => destruct b
         | |- context [match ?x with _ => _ end] => destruct x
         end; cbn [snd]; lia.
Qed.

Lemma space_decoded p r w :
  DecodeRune p = (r, w) -> IsSpace r = true -> p = EncodeRune r ++ drop w p.
Proof.
  intros Hd Hr. rewrite <- (EncodeRune_DecodeRune p r w Hd).
  - by rewrite take_drop.
  - intros [= -> _]. discriminate Hr.
  - intros ->. injection Hd as <- _. discriminate Hr.
Qed.

Lemma trimLeft_from_drop k p : trimLeft_from k p = trimLeft (drop k p).
Proof.
  revert k. induction p as [|a p IH]; intros [|k]; try done.
  cbn [trimLeft_from drop]. apply IH.
Qed.

Lemma trimLeft_step p r w :
  DecodeRune p = (r, w) -> IsSpace r = true -> trimLeft p = trimLeft (drop w p).
Proof.
  intros Hd Hr. destruct p as [|a p].
  { injection Hd as <- _. discriminate Hr. }
  pose proof (DecodeRune_pos a p) as Hw. rewrite Hd in Hw. cbn [snd] in Hw.
  unfold trimLeft at 1. cbn [trimLeft_from]. rewrite Hd, Hr, trimLeft_from_drop.
  destruct w as [|w]; [lia|]. done.
Qed.

(** What [trimLeft] removes is white space. *)
Lemma trimLeft_split p : exists l, white l /\ p = l ++ trimLeft p.
Proof.
  remember (length p) as n eqn:Hn. revert p Hn.
  induction n as [n IH] using lt_wf_ind. intros p Hn.
  destruct (DecodeRune p) as [r w] eqn:Hd.
  destruct (IsSpace r) eqn:Hr.
  - destruct p as [|a p]; [injection Hd as <- _; discriminate Hr|].
    pose proof (DecodeRune_pos a p) as Hw. rewrite Hd in Hw. cbn [snd] in Hw.
    destruct (IH (length (drop w (a :: p)))) with (p := drop w (a :: p))
      as (l & Hl & El); [|done|].
    { rewrite length_drop. subst n. simpl. lia. }
    exists (EncodeRune r ++ l). split; [by constructor|].
    rewrite (trimLeft_step _ _ _ Hd Hr), <- app_assoc, <- El.
    by apply space_decoded.
  - exists []. split; [constructor|]. rewrite trimLeft_fixed; [done|]. by rewrite Hd.
Qed.

Lemma lastWindow_length q win : lastWindow q = Some win -> (2 <= length win)%nat.
Proof.
  unfold lastWindow.
  repeat match goal with
         | |- context [match ?x with _ => _ end] => destruct x
         end; intros [= <-]; simpl; lia.
Qed.

Lemma DecodeLastRune_rev_pos a q : (1 <= (DecodeLastRune_rev (a :: q)).2)%nat.
Proof.
  unfold DecodeLastRune_rev.
  destruct (bv a <? RuneSelf); [cbn; lia|].
  destruct (lastWindow (a :: q)) as [win|] eqn:Hwin; [|cbn; lia].
  apply lastWindow_length in Hwin.
  destruct (DecodeRune win) as [r size].
  destruct (Nat.eqb_spec size (length win)) as [-> | _]; cbn [snd]; lia.
Qed.

Lemma lastWindow_rev q win :
  lastWindow q = Some win -> rev win = take (length win) q.
Proof.
  unfold lastWindow.
  repeat match goal with
         | |- context [match ?x with _ => _ end] => destruct x
         end; intros [= <-]; reflexivity.
Qed.

Lemma space_decoded_last q r w :
  DecodeLastRune_rev q = (r, w) -> IsSpace r = true ->
  q = rev (EncodeRune r) ++ drop w q.
Proof.
  intros Hd Hr. destruct q as [|a q]; [injection Hd as <- _; discriminate Hr|].
  revert Hd. unfold DecodeLastRune_rev, RuneSelf.
  destruct (Z.ltb_spec (bv a) 0x80) as [Hascii | Hhigh].
  { intros [= <- <-]. pose proof (bv_range a). rewrite EncodeRune_1 by lia.
    by rewrite byte_bv. }
  destruct (lastWindow (a :: q)) as [win|] eqn:Hwin;
    [|intros [= <- _]; discriminate Hr].
  destruct (DecodeRune win) as [r0 size] eqn:Hd0.
  destruct (Nat.eqb_spec size (length win)) as [-> | _];
    [|intros [= <- _]; discriminate Hr].
  intros [= <- <-].
  assert (win = EncodeRune r0) as <-.
  { rewrite <- (EncodeRune_DecodeRune win r0 _ Hd0).
    - by rewrite firstn_all.
    - intros [= -> _]. discriminate Hr.
    - intros ->. apply lastWindow_length in Hwin. simpl in Hwin. lia. }
  rewrite (lastWindow_rev _ _ Hwin). by rewrite take_drop.
Qed.

Lemma trimRight_from_drop k q : trimRight_from k q = trimRight_from 0 (drop k q).
Proof.
  revert k. induction q as [|a q IH]; intros [|k]; try done.
  cbn [trimRight_from drop]. apply IH.
Qed.

Lemma trimRight_from_step q r w :
  DecodeLastRune_rev q = (r, w) -> IsSpace r = true ->
  trimRight_from 0 q = trimRight_from 0 (drop w q).
Proof.
  intros Hd Hr. destruct q as [|a q].
  { injection Hd as <- _. discriminate Hr. }
  pose proof (DecodeLastRune_rev_pos a q) as Hw. rewrite Hd in Hw. cbn [snd] in Hw.
  cbn [trimRight_from]. rewrite Hd, Hr, trimRight_from_drop.
  destruct w as [|w]; [lia|]. done.
Qed.

(** What [trimRight] removes is white space. *)
Lemma trimRight_from_split q :
  exists r, white r /\ rev q = rev (trimRight_from 0 q) ++ r.
Proof.
  remember (length q) as n eqn:Hn. revert q Hn.
  induction n as [n IH] using lt_wf_ind. intros q Hn.
  destruct (DecodeLastRune_rev q) as [s w] eqn:Hd.
  destruct (IsSpace s) eqn:Hs.
  - destruct q as [|a q]; [injection Hd as <- _; discriminate Hs|].
    pose proof (DecodeLastRune_rev_pos a q) as Hw. rewrite Hd in Hw. cbn [snd] in Hw.
    destruct (IH (length (drop w (a :: q)))) with (q := drop w (a :: q))
      as (r & Hr & Er); [|done|].
    { rewrite length_drop. subst n. simpl. lia. }
    exists (r ++ EncodeRune s). split.
    { apply white_app; [done|]. rewrite <- (app_nil_r (EncodeRune s)).
      by repeat constructor. }
    rewrite (trimRight_from_step _ _ _ Hd Hs), app_assoc, <- Er.
    rewrite (space_decoded_last _ _ _ Hd Hs) at 1.
    by rewrite rev_app_distr, rev_involutive.
  - exists []. split; [constructor|].
    rewrite trimRight_from_fixed, app_nil_r; [done|]. by rewrite Hd.
Qed.

Lemma trimRight_split p : exists r, white r /\ p = trimRight p ++ r.
Proof.
  destruct (trimRight_from_split (rev p)) as (r & Hr & E).
  exists r. split; [done|]. by rewrite rev_involutive in E.
Qed.

(** Every string is a trimmed core between two runs of white space, and
    [TrimSpace] returns the core. *)
Lemma trim_decomposition p :
  exists l r, white l /\ white r /\ p = l ++ trimRight (trimLeft p) ++ r.
Proof.
  destruct (trimLeft_split p) as (l & Hl & El).
  destruct (trimRight_split (trimLeft p)) as (r & Hr & Er).
  exists l, r. split; [done|]. split; [done|]. by rewrite <- Er.
Qed.

Lemma of_bytes_inj p q : of_bytes p = of_bytes q -> p = q.
Proof. intros E. by rewrite <- (bytes_of_bytes p), E, bytes_of_bytes. Qed.

Lemma TrimSpace_empty s : TrimSpace s = ""%string <-> white (bytes s).
Proof.
  split; [|apply TrimSpace_white].
  unfold TrimSpace. intros E. apply (of_bytes_inj _ []) in E.
  destruct (trim_decomposition (bytes s)) as (l & r & Hl & Hr & Es).
  rewrite E in Es. rewrite Es. by apply white_app.
Qed.

Lemma same_keyword_trimmed `{CaseTable} x y :
  same_keyword x y <-> same_letters (bytes (TrimSpace x)) (bytes (TrimSpace y)).
Proof.
  split.
  - intros (l1 & c1 & r1 & l2 & c2 & r2 & Ex & Ey & ? & ? & ? & ? & ? & ? & Hc).
    rewrite (TrimSpace_core x l1 c1 r1), (TrimSpace_core y l2 c2 r2) by done.
    by rewrite !bytes_of_bytes.
  - unfold TrimSpace. rewrite !bytes_of_bytes. intros Hc.
    destruct (trim_decomposition (bytes x)) as (l1 & r1 & ? & ? & ?).
    destruct (trim_decomposition (bytes y)) as (l2 & r2 & ? & ? & ?).
    exists l1, (trimRight (trimLeft (bytes x))), r1,
           l2, (trimRight (trimLeft (bytes y))), r2.
    repeat split; try done; apply trim_trimmed.
Qed.

(** *** The library takes shortcuts; the result is the same *)

Lemma runes_from_drop k p : runes_from k p = runes (drop k p).
Proof.
  revert k. induction p as [|a p IH]; intros [|k]; try done.
  cbn [runes_from drop]. apply IH.
Qed.

Lemma runes_step p r w :
  p <> [] -> DecodeRune p = (r, w) -> runes p = r :: runes (drop w p).
Proof.
  intros Hp Hd. destruct p as [|a p]; [done|].
  pose proof (DecodeRune_pos a p) as Hw. rewrite Hd in Hw. cbn [snd] in Hw.
  unfold runes at 1. cbn [runes_from]. rewrite Hd, runes_from_drop.
  destruct w as [|w]; [lia|]. done.
Qed.

Lemma DecodeRune_nonneg p : 0 <= (DecodeRune p).1.
Proof.
  destruct p as [|a0 p]; [done|]. pose proof (bv_range a0).
  unfold DecodeRune, RuneSelf.
  destruct (Z.ltb_spec (bv a0) 0x80); [cbn; lia|].
  destruct (first (bv a0)) as [[[sz lo] hi]|] eqn:Hf; [|done].
  apply first_cases in Hf.
  destruct p as [|a1 p]; [done|].
  destruct (outside lo hi (bv a1)) eqn:O1; [done|]. apply outside_false in O1.
  destruct Hf as [(-> & ? & -> & ->) | [(-> & ? & ? & ? & _) | (-> & ? & ? & ? & _)]];
    cbn [Nat.leb].
  - cbn [fst]. rewrite decode2_value by lia. lia.
  - destruct p as [|a2 p]; [done|].
    destruct (outside locb hicb (bv a2)) eqn:O2; [done|].
    apply outside_false in O2. unfold locb, hicb in O2.
    cbn [fst]. rewrite decode3_value by lia. lia.
  - destruct p as [|a2 p]; [done|].
    destruct (outside locb hicb (bv a2)) eqn:O2; [done|].
    apply outside_false in O2. unfold locb, hicb in O2.
    destruct p as [|a3 p]; [done|].
    destruct (outside locb hicb (bv a3)) eqn:O3; [done|].
    apply outside_false in O3. unfold locb, hicb in O3.
    cbn [fst]. rewrite decode4_value by lia. lia.
Qed.

(** A mapping that changes no rune of a valid string leaves the string as
    it is: encoding every rune again gives the bytes the library copies. *)
Lemma Map_fixed mapping p :
  valid p -> Forall (fun c => mapping c = c) (runes p) -> Map mapping p = p.
Proof.
  unfold Map. induction 1 as [|p r w Hp Hd Hv _ IH]; [done|].
  rewrite (runes_step p r w Hp Hd). intros Hall.
  apply Forall_cons in Hall as [Hr Hall]. cbn [flat_map]. rewrite Hr, (IH Hall).
  pose proof (DecodeRune_nonneg p) as Hn. rewrite Hd in Hn. cbn [fst] in Hn.
  destruct (Z.ltb_spec r 0); [lia|].
  rewrite <- (EncodeRune_DecodeRune p r w Hd Hv Hp). apply take_drop.
Qed.

(** On an ASCII string [ToLower] is the byte-wise fast path of the
    library. *)
Lemma ToLower_ascii `{CaseTable} s :
  Forall (fun a => bv a < RuneSelf) (bytes s) ->
  bytes (ToLower s)
  = map (fun a => if (65 <=? bv a) && (bv a <=? 90) then byte (bv a + 32) else a)
        (bytes s).
Proof.
  unfold ToLower, Map. rewrite bytes_of_bytes. generalize (bytes s). clear s.
  intros p Hp. induction Hp as [|a p Ha _ IH]; [done|].
  pose proof (bv_range a) as Hr.
  unfold runes. cbn [runes_from DecodeRune]. unfold RuneSelf in *.
  destruct (Z.ltb_spec (bv a) 0x80); [|lia].
  cbn [Nat.pred flat_map map]. fold (runes p). rewrite IH. f_equal.
  unfold unicode.ToLower, MaxASCII.
  destruct (Z.leb_spec (bv a) 0x7F); [|lia].
  destruct ((65 <=? bv a) && (bv a <=? 90)) eqn:E.
  - apply andb_true_iff in E as [E1 E2]. apply Z.leb_le in E1, E2.
    destruct (Z.ltb_spec (bv a + 32) 0); [lia|]. by rewrite EncodeRune_1 by lia.
  - destruct (Z.ltb_spec (bv a) 0); [lia|]. by rewrite EncodeRune_1, byte_bv by lia.
Qed.

Lemma IsSpace_ascii a : bv a < RuneSelf -> IsSpace (bv a) = asciiSpace a.
Proof.
  intros Ha. pose proof (bv_range a). unfold IsSpace, asciiSpace, MaxLatin1, RuneSelf in *.
  destruct (Z.leb_spec 0 (bv a)), (Z.leb_spec (bv a) 0xFF); try lia. cbn [andb].
  destruct (Z.eqb_spec (bv a) 0x85); [lia|].
  destruct (Z.eqb_spec (bv a) 0xA0); [lia|]. by rewrite !orb_false_r.
Qed.

Lemma trimLeft_ascii p :
  Forall (fun a => bv a < RuneSelf) p -> trimLeft p = drop_spaces p.
Proof.
  induction 1 as [|a p Ha _ IH]; [done|].
  unfold trimLeft. cbn [trimLeft_from DecodeRune drop_spaces].
  destruct (Z.ltb_spec (bv a) RuneSelf); [|lia].
  rewrite (IsSpace_ascii a Ha). by destruct (asciiSpace a).
Qed.

Lemma trimRight_from_ascii q :
  Forall (fun a => bv a < RuneSelf) q -> trimRight_from 0 q = drop_spaces q.
Proof.
  induction 1 as [|a q Ha _ IH]; [done|].
  cbn [trimRight_from DecodeLastRune_rev drop_spaces].
  destruct (Z.ltb_spec (bv a) RuneSelf); [|lia].
  rewrite (IsSpace_ascii a Ha). by destruct (asciiSpace a).
Qed.

Lemma drop_spaces_ascii p :
  Forall (fun a => bv a < RuneSelf) p ->
  Forall (fun a => bv a < RuneSelf) (drop_spaces p).
Proof.
  induction 1 as [|a p Ha Hp IH]; [done|]. simpl.
  destruct (asciiSpace a); [done | by constructor].
Qed.

(** On an ASCII string [TrimSpace] is the byte-wise fast path of the
    library: the ASCII spaces are dropped at both ends. *)
Lemma TrimSpace_ascii s :
  Forall (fun a => bv a < RuneSelf) (bytes s) ->
  bytes (TrimSpace s) = rev (drop_spaces (rev (drop_spaces (bytes s)))).
Proof.
  intros Hs. unfold TrimSpace, trimRight.
  rewrite bytes_of_bytes, trimLeft_ascii by done.
  rewrite trimRight_from_ascii; [done|].
  by apply List.Forall_rev, drop_spaces_ascii.
Qed.

(** *** The case of ASCII letters *)

Section AsciiCase.
Context `{CaseTable}.

Lemma case_variant_ascii a b :
  case_variant a b ->
  a = b \/ (bv a < 0x80 /\ bv b < 0x80
            /\ unicode.ToLower (bv a) = unicode.ToLower (bv b)).
Proof.
  unfold case_variant, isUpper, unicode.ToLower, MaxASCII.
  intros [-> | [[Hu E] | [Hu E]]]; [by left|right..];
    apply andb_true_iff in Hu as [H1 H2]; apply Z.leb_le in H1, H2;
    repeat match goal with
           | |- context [?x <=? ?y] => destruct (Z.leb_spec x y)
           end; cbn [andb]; lia.
Qed.

Lemma outside_variant lo hi a b :
  case_variant a b -> 0x80 <= lo ->
  outside lo hi (bv a) = outside lo hi (bv b)
  /\ (outside lo hi (bv a) = false -> a = b).
Proof.
  intros Hv Hlo. destruct (case_variant_ascii a b Hv) as [-> | (Ha & Hb & _)]; [done|].
  unfold outside.
  destruct (Z.ltb_spec (bv a) lo), (Z.ltb_spec (bv b) lo); (lia || done).
Qed.

(** Strings equal byte by byte up to the case of ASCII letters decode to
    runes equal up to case, of the same width. *)
Lemma DecodeRune_variant c1 c2 :
  Forall2 case_variant c1 c2 ->
  (DecodeRune c1).2 = (DecodeRune c2).2
  /\ unicode.ToLower (DecodeRune c1).1 = unicode.ToLower (DecodeRune c2).1.
Proof.
  intros Hc. destruct Hc as [|a0 b0 c1 c2 H0 Hc]; [done|].
  unfold DecodeRune, RuneSelf.
  destruct (case_variant_ascii a0 b0 H0) as [<- | (Ha & Hb & E)].
  2:{ destruct (Z.ltb_spec (bv a0) 0x80), (Z.ltb_spec (bv b0) 0x80); try lia. done. }
  destruct (bv a0 <? 0x80); [done|].
  destruct (first (bv a0)) as [[[sz lo] hi]|] eqn:Hf; [|done].
  apply first_range in Hf as [Hlo Hhi].
  destruct Hc as [|a1 b1 c1 c2 H1 Hc]; [done|].
  destruct (outside_variant lo hi a1 b1 H1 Hlo) as [<- E1].
  destruct (outside lo hi (bv a1)); [done|]. rewrite <- (E1 eq_refl).
  destruct (sz <=? 2)%nat; [done|].
  destruct Hc as [|a2 b2 c1 c2 H2 Hc]; [done|].
  destruct (outside_variant locb hicb a2 b2 H2) as [<- E2]; [unfold locb; lia|].
  destruct (outside locb hicb (bv a2)); [done|]. rewrite <- (E2 eq_refl).
  destruct (sz <=? 3)%nat; [done|].
  destruct Hc as [|a3 b3 c1 c2 H3 Hc]; [done|].
  destruct (outside_variant locb hicb a3 b3 H3) as [<- E3]; [unfold locb; lia|].
  destruct (outside locb hicb (bv a3)); [done|]. by rewrite <- (E3 eq_refl).
Qed.

(** The case of ASCII letters makes no difference to [same_letters]. *)
Lemma case_variant_same_letters c1 c2 :
  Forall2 case_variant c1 c2 -> same_letters c1 c2.
Proof.
  unfold same_letters.
  remember (length c1) as n eqn:Hn. revert c1 c2 Hn.
  induction n as [n IH] using lt_wf_ind. intros c1 c2 Hn Hc.
  destruct (DecodeRune_variant c1 c2 Hc) as [Ew Er].
  destruct Hc as [|a b c1 c2 Hab Hc]; [constructor|].
  destruct (DecodeRune (a :: c1)) as [r1 w] eqn:D1.
  destruct (DecodeRune (b :: c2)) as [r2 w2] eqn:D2. cbn [fst snd] in *. subst w2.
  pose proof (DecodeRune_pos a c1) as Hw. rewrite D1 in Hw. cbn [snd] in Hw.
  assert (a :: c1 <> [] /\ b :: c2 <> []) as [N1 N2] by done.
  rewrite (runes_step _ _ _ N1 D1), (runes_step _ _ _ N2 D2).
  constructor; [exact Er|].
  apply (IH (length (drop w (a :: c1)))) with (c1 := drop w (a :: c1)); [|done|].
  - rewrite length_drop. subst n. simpl. lia.
  - apply Forall2_drop. by constructor.
Qed.
End AsciiCase.

End trim_facts.

(** ** Encoding and decoding JSON *)
Module json_facts.
Import json_lib wire.
#[local] Open Scope string_scope.

Lemma marshals_insert (m : gmap string any) k v :
  m !! k = None ->
  marshals (AMap (Some (<[k := v]> m))) = marshals v && marshals (AMap (Some m)).
Proof.
  intros Hk. cbn [marshals].
  rewrite map_fold_insert_L; [done| |done].
  intros j1 j2 z1 z2 y _ _ _. by destruct (marshals z1), (marshals z2), y.
Qed.

Lemma marshals_singleton k v :
  marshals (AMap (Some ({[k := v]} : gmap string any))) = marshals v.
Proof.
  rewrite <- insert_empty, marshals_insert by done. apply andb_true_r.
Qed.

Section Decoding.
Context `{JSONLib}.

(** Once a member has failed, the decoding of the object has failed. *)
Lemma foldl_failed {T} (step : string -> json -> T -> option T) ms :
  foldl (fun acc '(k, x) => t ← acc; step k x t) None ms = None.
Proof. induction ms as [|[k x] ms IH]; [done|]. apply IH. Qed.

Lemma foldl_fails {T} (step : string -> json -> T -> option T) ms k x acc :
  In (k, x) ms -> (forall t, step k x t = None) ->
  foldl (fun acc '(k, x) => t ← acc; step k x t) acc ms = None.
Proof.
  intros Hin Hbad. revert acc.
  induction ms as [|[k' x'] ms IH]; intros acc; [done|].
  destruct Hin as [[= -> ->] | Hin]; [|by apply IH].
  simpl. destruct acc as [t|]; simpl; [rewrite Hbad|]; apply foldl_failed.
Qed.

(** Members that are skipped leave the struct as it is. *)
Lemma foldl_skips {T} (step : string -> json -> T -> option T) ms t :
  Forall (fun m => forall t, step m.1 m.2 t = Some t) ms ->
  foldl (fun acc '(k, x) => t ← acc; step k x t) (Some t) ms = Some t.
Proof.
  induction 1 as [|[k x] ms Hm _ IH]; [done|]. simpl. by rewrite Hm.
Qed.

(** An object with one member for a field: that member decides. *)
Lemma into_struct_holds {T} (step : string -> json -> T -> option T)
      name v j cur :
  holds name v j ->
  (forall k x t, field [name] k = None -> step k x t = Some t) ->
  exists k, is_Some (field [name] k) /\ into_struct step j cur = step k v cur.
Proof.
  intros (pre & k & post & -> & Hpre & Hk & Hpost) Hskip.
  exists k. split; [done|]. unfold into_struct.
  rewrite foldl_app. simpl.
  rewrite foldl_skips.
  2:{ eapply Forall_impl; [exact Hpre|]. intros [k' x'] Hf t. by apply Hskip. }
  simpl. destruct (step k v cur) as [t|]; [|apply foldl_failed].
  apply foldl_skips.
  eapply Forall_impl; [exact Hpost|]. intros [k' x'] Hf t'. by apply Hskip.
Qed.

Lemma index_where_lt f names i :
  index_where f names = Some i -> (i < length names)%nat.
Proof.
  revert i. induction names as [|n names IH]; intros i; [done|].
  simpl. destruct (f n); [intros [= <-]; lia|].
  destruct (index_where f names) as [j|]; [|done].
  intros [= <-]. specialize (IH j eq_refl). lia.
Qed.

(** A member is stored into one of the fields of the struct. *)
Lemma field_lt names k i : field names k = Some i -> (i < length names)%nat.
Proof.
  unfold field. destruct (index_where (String.eqb k) names) as [j|] eqn:E.
  - intros [= <-]. by apply index_where_lt in E.
  - apply index_where_lt.
Qed.

Lemma into_elems_Forall2 {T S} (elem : json -> T -> option T) (zero : T)
      (P : json -> S -> Prop) (mk : S -> T) items ss :
  Forall2 P items ss ->
  (forall x s cur, P x s -> elem x cur = Some (mk s)) ->
  forall cur, into_elems elem zero items cur = Some (map mk ss).
Proof.
  intros HP Helem. induction HP as [|x s items ss Hx _ IH]; intros cur; [done|].
  simpl. rewrite (Helem _ _ _ Hx). simpl. by rewrite IH.
Qed.

Lemma into_elems_fails {T} (elem : json -> T -> option T) zero items x :
  In x items -> (forall cur, elem x cur = None) ->
  forall cur, into_elems elem zero items cur = None.
Proof.
  intros Hin Hbad. induction items as [|y items IH]; intros cur; [done|].
  simpl. destruct Hin as [-> | Hin]; [by rewrite Hbad|].
  destruct (elem y (hd zero cur)); [|done]. simpl. by rewrite IH.
Qed.
End Decoding.
End json_facts.

(** ** The response of the engine to a completion query *)
Module response_facts.
Import json_lib esapi main wire json_facts.
#[local] Open Scope string_scope.

Section Decoding.
Context `{JSONLib}.

Ltac by_field :=
  intros ? ? ? Hf; cbv beta; by rewrite Hf.

Lemma decode_option_shape j t cur :
  is_option j t -> decode_option j cur = Some {| Text := t |}.
Proof.
  intros Hj. unfold decode_option.
  edestruct (into_struct_holds
               (fun k x t =>
                  match field ["text"] k with
                  | Some _ => (fun s => {| Text := s |}) <$> into_string x (Text t)
                  | None => Some t
                  end) "text" (JString t) j cur Hj) as (k & [i Hk] & ->).
  { by_field. }
  by rewrite Hk.
Qed.

Lemma decode_entry_shape j ts cur :
  is_entry j ts -> decode_entry j cur = Some {| Options := map Build_parsedOption ts |}.
Proof.
  intros (items & Hj & Hitems). unfold decode_entry.
  edestruct (into_struct_holds
               (fun k x t =>
                  match field ["options"] k with
                  | Some _ =>
                    (fun l => {| Options := l |})
                      <$> into_slice decode_option {| Text := "" |} x (Options t)
                  | None => Some t
                  end) "options" (JArray items) j cur Hj) as (k & [i Hk] & ->).
  { by_field. }
  rewrite Hk. cbn [into_slice].
  erewrite into_elems_Forall2; [done|exact Hitems|].
  intros x s c Hx. by apply decode_option_shape.
Qed.

Lemma decode_parsed_shape j tss cur :
  is_response j tss ->
  exists parsed,
    decode_parsed j cur = Some parsed
    /\ Suggest parsed !! "ac"
       = Some (map (fun ts => {| Options := map Build_parsedOption ts |}) tss).
Proof.
  intros (items & Hj & Hitems). unfold decode_parsed.
  edestruct (into_struct_holds
               (fun k x t =>
                  match field ["suggest"] k with
                  | Some _ =>
                    (fun m => {| Suggest := m |})
                      <$> into_map_of decode_group [] x (Suggest t)
                  | None => Some t
                  end) "suggest" (JObject [("ac", JArray items)]) j cur Hj)
    as (k & [i Hk] & ->).
  { by_field. }
  rewrite Hk. cbn [into_map_of foldl]. unfold decode_group at 1. cbn [into_slice mbind option_bind].
  erewrite into_elems_Forall2; [|exact Hitems|].
  2:{ intros x s c Hx. by apply decode_entry_shape. }
  eexists. split; [reflexivity|]. cbn [Suggest]. apply lookup_insert_eq.
Qed.

(** The texts come out in the order of the response. *)
Lemma flatten_texts tss :
  flat_map (fun bucket => map Text (Options bucket))
           (map (fun ts => {| Options := map Build_parsedOption ts |}) tss)
  = concat tss.
Proof.
  induction tss as [|ts tss IH]; [done|]. simpl. rewrite IH. f_equal.
  rewrite map_map. apply map_id.
Qed.

(** A value of the wrong type anywhere on the way makes the decoding
    fail. *)
Lemma into_string_bad x cur : no_string x -> into_string x cur = None.
Proof. by destruct x. Qed.

Lemma decode_bad_member {T} (step : string -> json -> T -> option T)
      name bad j cur :
  bad_member name bad j ->
  (forall k x t, is_Some (field [name] k) -> bad x -> step k x t = None) ->
  into_struct step j cur = None.
Proof.
  intros (ms & k & x & -> & Hin & Hk & Hx) Hstep. unfold into_struct.
  eapply foldl_fails; [exact Hin|]. intros t. by apply Hstep.
Qed.

Lemma decode_option_bad j cur : bad_option j -> decode_option j cur = None.
Proof.
  intros [Hj | Hj]; [by destruct j|].
  eapply decode_bad_member; [exact Hj|].
  intros k x t [i Hk] Hx. cbv beta. by rewrite Hk, into_string_bad.
Qed.

Lemma decode_options_bad j cur :
  bad_options j -> into_slice decode_option {| Text := "" |} j cur = None.
Proof.
  intros [Hj | (items & x & -> & Hin & Hx)]; [by destruct j|].
  cbn [into_slice]. eapply into_elems_fails; [exact Hin|].
  intros c. by apply decode_option_bad.
Qed.

Lemma decode_entry_bad j cur : bad_entry j -> decode_entry j cur = None.
Proof.
  intros [Hj | Hj]; [by destruct j|].
  eapply decode_bad_member; [exact Hj|].
  intros k x t [i Hk] Hx. cbv beta. by rewrite Hk, decode_options_bad.
Qed.

Lemma decode_group_bad j cur : bad_group j -> decode_group j cur = None.
Proof.
  intros [Hj | (items & x & -> & Hin & Hx)]; [by destruct j|].
  unfold decode_group. cbn [into_slice]. eapply into_elems_fails; [exact Hin|].
  intros c. by apply decode_entry_bad.
Qed.

Lemma decode_groups_bad j cur :
  bad_groups j -> into_map_of decode_group [] j cur = None.
Proof.
  intros [Hj | (ms & k & x & -> & Hin & Hx)]; [by destruct j|].
  cbn [into_map_of].
  apply (foldl_fails (fun k x m => v ← decode_group x []; Some (<[k := v]> m))
                     ms k x (Some cur) Hin).
  intros m. by rewrite decode_group_bad.
Qed.

Lemma decode_parsed_bad j cur : bad_response j -> decode_parsed j cur = None.
Proof.
  intros [Hj | Hj]; [by destruct j|].
  eapply decode_bad_member; [exact Hj|].
  intros k x t [i Hk] Hx. cbv beta. by rewrite Hk, decode_groups_bad.
Qed.

(** An object without a member for [suggest] decodes to the zero value. *)
Lemma decode_parsed_without ms cur :
  skipped "suggest" ms -> decode_parsed (JObject ms) cur = Some cur.
Proof.
  intros Hms. unfold decode_parsed, into_struct.
  apply (foldl_skips
           (fun k x t =>
              match field ["suggest"] k with
              | Some _ =>
                (fun m => {| Suggest := m |})
                  <$> into_map_of decode_group [] x (Suggest t)
              | None => Some t
              end)).
  eapply Forall_impl; [exact Hms|]. intros [k x] Hf t. simpl in *. by rewrite Hf.
Qed.
End Decoding.
End response_facts.

(** ** The service *)
Module service_facts.
Import unicode strings json_lib http esapi main keyword wire.
Import utf8_facts trim_facts json_facts response_facts.
#[local] Open Scope string_scope.

Section Service.
Context `{CaseTable} `{JSONLib} `{Engine}.

(** The identifier is the digest of the trimmed keyword in lower case. *)
Lemma docID_trimmed keyword :
  docID (TrimSpace keyword) = docID keyword.
Proof. unfold docID. by rewrite TrimSpace_idempotent. Qed.

Lemma normalized_same_keyword x y :
  same_keyword x y -> ToLower (TrimSpace x) = ToLower (TrimSpace y).
Proof.
  intros (l1 & c1 & r1 & l2 & c2 & r2 & Ex & Ey & ? & ? & ? & ? & ? & ? & Hc).
  rewrite (TrimSpace_core x l1 c1 r1), (TrimSpace_core y l2 c2 r2) by done.
  by apply ToLower_same_letters.
Qed.

Lemma docID_same x y : same_keyword x y -> docID x = docID y.
Proof. intros Hxy. unfold docID. by rewrite (normalized_same_keyword x y). Qed.

Lemma marshals_payload (kw : string) (wt : Z) (meta : option (gmap string any)) :
  marshals
    (AMap (Some
       {[ "doc" :=
            AMap (Some
              {[ "keyword" := AString kw;
                 "suggest" :=
                   AMap (Some {[ "input" := AStrings [kw]; "weight" := AInt wt ]});
                 "meta" := AMap meta ]});
          "doc_as_upsert" := ABool true ]}))
  = marshals (AMap meta).
Proof.
  rewrite !marshals_insert, !marshals_singleton by done.
  cbn [marshals]. by rewrite !andb_true_r.
Qed.

Lemma upsertKeyword_accepted req w : accepted req -> sends req w (update_of req).
Proof.
  destruct req as [kw wt meta]. intros [Hkw Hm].
  unfold sends, upsertKeyword, update_of. cbn [Keyword Weight Meta] in *.
  destruct (String.eqb_spec (TrimSpace kw) "") as [E | _]; [done|].
  destruct (wt =? 0)%Z, meta as [m|];
    cbn [Keyword Weight Meta default from_option id] in *;
    unfold Marshal; rewrite marshals_payload;
    first [rewrite Hm | change (marshals (AMap (Some ∅))) with true];
    cbv iota; unfold bind, Do, ret;
    lazymatch goal with
    | |- context [perform ?c ?s] => destruct (perform c s) as [[err | res] s']
    end;
    try destruct (IsError res); reflexivity.
Qed.

(** What the document of that update holds. *)
Lemma update_of_keyword req :
  doc_field "keyword" (update_of req) = Some (AString (TrimSpace (Keyword req))).
Proof. reflexivity. Qed.

Lemma update_of_input req :
  doc_field "suggest" (update_of req) ≫= member "input"
  = Some (AStrings [TrimSpace (Keyword req)]).
Proof. reflexivity. Qed.

Lemma update_of_weight req :
  doc_field "suggest" (update_of req) ≫= member "weight"
  = Some (AInt (if (Weight req =? 0)%Z then 1 else Weight req)).
Proof. reflexivity. Qed.

Lemma update_of_meta req :
  doc_field "meta" (update_of req) = Some (AMap (Some (default ∅ (Meta req)))).
Proof. reflexivity. Qed.

End Service.
End service_facts.

(** ** Validation before any call *)
Module validation.
Import unicode strings json_lib http esapi main keyword wire sample.
Import utf8_facts trim_facts json_facts response_facts service_facts.
#[local] Open Scope string_scope.

Section Service.
Context `{CaseTable} `{JSONLib} `{Engine}.

(** C5. A submission whose keyword is empty or made of white space only
    is refused by [upsertKeyword] with the validation error, and the
    world is left as it was: no call reaches the engine. *)
Theorem upsertKeyword_blank req w :
  white (bytes (Keyword req)) ->
  upsertKeyword req w = (Some (errors_New "keyword가 비어 있음"), w).
Proof.
  intros Hw. unfold upsertKeyword. by rewrite TrimSpace_white.
Qed.

(** C8. A request to [/suggest] whose [q] is missing, empty or made of
    white space only is answered 400, and the world is left as it was:
    no search reaches the engine. *)
Theorem handleSuggest_blank r w :
  white (bytes (Get (Query r) "q")) ->
  handleSuggest r w
  = (http_Error "q 파라미터가 필요합니다" StatusBadRequest, w)
  /\ Code (handleSuggest r w).1 = 400.
Proof.
  intros Hw. unfold handleSuggest. by rewrite TrimSpace_white.
Qed.

(** C10. A request to [/keywords] whose method is not POST is answered
    405, and the world is left as it was: the body is not read and no
    call reaches the engine. *)
Theorem handleKeywords_not_post r w :
  Method r <> MethodPost ->
  handleKeywords r w
  = (http_Error "POST로 요청하세요" StatusMethodNotAllowed, w)
  /\ Code (handleKeywords r w).1 = 405
  /\ trace (handleKeywords r w).2 = trace w.
Proof.
  intros Hm. unfold handleKeywords.
  destruct (String.eqb_spec (Method r) MethodPost) as [E | _]; [done|].
  done.
Qed.
End Service.

Lemma upsertKeyword_blank_witness :
  upsertKeyword {| Keyword := "   "; Weight := 7; Meta := None |} (start [])
  = (Some (errors_New "keyword가 비어 있음"), start []).
Proof.
  apply (upsertKeyword_blank {| Keyword := "   "; Weight := 7; Meta := None |}).
  simpl. white_space.
Defined.

Lemma handleSuggest_blank_witness :
  handleSuggest {| Method := "GET"; Query := {[ "q" := [" "] ]}; http.Body := None |}
                (start [])
  = (http_Error "q 파라미터가 필요합니다" StatusBadRequest, start [])
  /\ Code (handleSuggest {| Method := "GET"; Query := {[ "q" := [" "] ]};
                            http.Body := None |} (start [])).1 = 400.
Proof.
  apply (handleSuggest_blank
           {| Method := "GET"; Query := {[ "q" := [" "] ]}; http.Body := None |}).
  vm_compute. white_space.
Defined.

Lemma handleKeywords_not_post_witness :
  handleKeywords {| Method := "GET"; Query := ∅; http.Body := None |} (start [])
  = (http_Error "POST로 요청하세요" StatusMethodNotAllowed, start [])
  /\ Code (handleKeywords {| Method := "GET"; Query := ∅; http.Body := None |}
                          (start [])).1 = 405
  /\ trace (handleKeywords {| Method := "GET"; Query := ∅; http.Body := None |}
                           (start [])).2 = trace (start []).
Proof.
  apply (handleKeywords_not_post
           {| Method := "GET"; Query := ∅; http.Body := None |}).
  discriminate.
Defined.
End validation.

(** ** The index bootstrap *)
Module bootstrap.
Import json_lib http esapi main wire sample.
#[local] Open Scope string_scope.

Section Service.
Context `{Engine}.

(** C3, as the code has it. [ensureIndex] first asks whether the index
    exists. Found (200): success, and nothing is created. Not found
    (404): it asks for the creation with the fixed schema, and succeeds
    exactly when the answer to that carries no error status (at most
    299). Every other outcome of either call is an error: a transport
    failure, another status of the check, an error status of the
    creation -- the answer to a creation that lost a race included. *)
Theorem ensureIndex_protocol w :
  let a1 := perform check (engine w) in
  let a2 := perform create a1.2 in
  let found := status a1.1 = Some 200 in
  let missing := status a1.1 = Some 404 in
  let created := exists n, status a2.1 = Some n /\ n <= 299 in
  let checked := {| engine := a1.2; trace := trace w ++ [Call check] |} in
  let asked_both :=
    {| engine := a2.2; trace := trace w ++ [Call check; Call create] |} in
  (found -> ensureIndex w = (None, checked))
  /\ (missing -> created -> ensureIndex w = (None, asked_both))
  /\ (missing -> ~ created -> exists e, ensureIndex w = (Some e, asked_both))
  /\ (~ found -> ~ missing -> exists e, ensureIndex w = (Some e, checked)).
Proof.
  cbv zeta. unfold ensureIndex, bind, Do, ret, check, create.
  destruct (perform (Indices_Exists [indexName]) (engine w)) as [[e1 | res1] s1];
    cbn [fst snd status engine trace].
  { split; [done|]. split; [done|]. split; [done|]. intros _ _.
    eexists; reflexivity. }
  unfold StatusOK, StatusNotFound.
  destruct (Z.eqb_spec (StatusCode res1) 200) as [E200 | N200].
  { rewrite E200. split; [done|]. split; [done|]. split; [done|]. done. }
  destruct (Z.eqb_spec (StatusCode res1) 404) as [E404 | N404];
    cbn [negb]; cbv beta iota zeta; cbn [engine trace].
  2:{ split; [congruence|]. split; [congruence|]. split; [congruence|].
      intros _ _. eexists; reflexivity. }
  destruct (perform (Indices_Create indexName (strings_NewReader indexMapping)) s1)
    as [[e2 | res2] s2]; cbn [fst snd status engine trace];
    rewrite <- app_assoc; cbn [app].
  { split; [congruence|]. split; [by intros _ (n & [=] & _)|].
    split; [|congruence]. intros _ _. eexists; reflexivity. }
  unfold IsError. destruct (Z.ltb_spec 299 (StatusCode res2)) as [Hbad | Hok].
  - split; [congruence|]. split; [intros _ (n & [= <-] & Hn); lia|].
    split; [|congruence]. intros _ _. eexists; reflexivity.
  - split; [congruence|]. split; [done|]. split; [|congruence].
    intros _ Hno. exfalso. apply Hno. eexists. split; [reflexivity | lia].
Qed.
End Service.

Lemma ensureIndex_protocol_witness :
  ensureIndex (start [answer 404 None; answer 200 None])
  = (None, {| engine := [];
              trace := [Call check; Call create] |}).
Proof.
  apply (ensureIndex_protocol (start [answer 404 None; answer 200 None])).
  - reflexivity.
  - exists 200. split; [reflexivity | lia].
Defined.

(** The creation lost the race: the engine answers that the index exists
    already, and [ensureIndex] returns an error. *)
Lemma ensureIndex_lost_race :
  (ensureIndex (start [answer 404 None; inr already_exists])).1
  = Some (fmt_Errorf "인덱스 생성 응답 에러: %s" (OpResponse already_exists)).
Proof. reflexivity. Qed.

(** Run twice, the second run finding the index: one check each time but
    the creation of the first run, and no error. *)
Lemma ensureIndex_twice :
  let w1 := (ensureIndex (start [answer 404 None; answer 200 None;
                                 answer 200 None])).2 in
  (ensureIndex w1).1 = None
  /\ trace (ensureIndex w1).2 = [Call check; Call create; Call check].
Proof. split; reflexivity. Qed.
End bootstrap.

(** ** The identity of a document *)
Module identity.
Import unicode strings json_lib http esapi main keyword wire sample.
Import utf8_facts trim_facts json_facts service_facts validation.
#[local] Open Scope string_scope.



(** The same for the case of ASCII letters read off the bytes: cores equal
    byte by byte up to the case of ASCII letters, whatever other bytes they
    hold. *)
Lemma docID_ascii_case `{CaseTable} x y l1 c1 r1 l2 c2 r2 :
  bytes x = (l1 ++ c1 ++ r1)%list -> bytes y = (l2 ++ c2 ++ r2)%list ->
  white l1 -> white r1 -> white l2 -> white r2 ->
  trimmed c1 -> trimmed c2 -> Forall2 case_variant c1 c2 ->
  docID x = docID y.
Proof.
  intros Ex Ey Hl1 Hr1 Hl2 Hr2 Hc1 Hc2 Hv. apply docID_same.
  exists l1, c1, r1, l2, c2, r2.
  do 8 (split; [done|]). by apply case_variant_same_letters.
Qed.

Example docID_iphone : docID "  iPhone 15 " = "79bc986720e2d3c07cefb374fc8d44f1e9390fc8".
Proof. reflexivity. Qed.
End identity.

(** ** Upserts *)
Module upsert.
Import unicode strings json_lib http esapi main keyword wire sample.
Import utf8_facts trim_facts json_facts service_facts validation.
#[local] Open Scope string_scope.

Section Service.
Context `{CaseTable} `{JSONLib} `{Engine}.

(** C2, as the code has it. For every accepted submission the weight in
    the stored document is never zero: zero is rewritten to 1, and every
    other weight is stored as submitted, a negative one too. The stored
    weight is positive whenever the submitted one is not negative. *)
Theorem stored_weight_never_zero req w :
  accepted req ->
  exists u n,
    sends req w u /\ stored_weight u = Some (AInt n)
    /\ n = (if (Weight req =? 0)%Z then 1 else Weight req)%Z
    /\ n <> 0%Z
    /\ (0 <= Weight req -> 0 < n)%Z
    /\ (Weight req < 0 -> n = Weight req)%Z.
Proof.
  intros Hacc. exists (update_of req), (if (Weight req =? 0)%Z then 1 else Weight req)%Z.
  split; [by apply upsertKeyword_accepted|].
  split; [apply update_of_weight|].
  destruct (Z.eqb_spec (Weight req) 0); repeat split; lia.
Qed.

(** C6. For every accepted submission, a weight of 0 -- the value of a
    request without weight -- is stored as 1 and a positive weight as it
    is; a nil meta -- the value of a request without meta -- is stored as
    an empty map, and a meta as it is. A JSON body without a member for
    [weight] decodes to the weight 0, one without a member for [meta] to
    the nil meta. *)
Theorem upsert_defaults :
  (forall req w,
      accepted req ->
      exists u,
        sends req w u
        /\ (Weight req = 0%Z -> stored_weight u = Some (AInt 1))
        /\ ((0 < Weight req)%Z -> stored_weight u = Some (AInt (Weight req)))
        /\ (Meta req = None -> doc_field "meta" u = Some (AMap (Some ∅)))
        /\ (forall m, Meta req = Some m ->
                      doc_field "meta" u = Some (AMap (Some m))))
  /\ (forall ms req,
         decode_upsertRequest (JObject ms)
                              {| Keyword := ""; Weight := 0; Meta := None |}
         = Some req ->
         (omitted 1 ms -> Weight req = 0%Z)
         /\ (omitted 2 ms -> Meta req = None)).
Proof.
  split.
  - intros req w Hacc. exists (update_of req).
    split; [by apply upsertKeyword_accepted|].
    unfold stored_weight. rewrite update_of_weight, update_of_meta.
    split; [by intros ->|].
    split; [intros Hw; destruct (Z.eqb_spec (Weight req) 0); [lia|done]|].
    split; [by intros ->|]. by intros m ->.
  - unfold decode_upsertRequest, into_struct.
    assert (forall i ms cur req,
              foldl (fun acc '(k, x) =>
                       t ← acc;
                       match field ["keyword"; "weight"; "meta"] k with
                       | Some 0%nat =>
                         (fun s => {| Keyword := s; Weight := Weight t; Meta := Meta t |})
                           <$> into_string x (Keyword t)
                       | Some 1%nat =>
                         (fun n => {| Keyword := Keyword t; Weight := n; Meta := Meta t |})
                           <$> into_int x (Weight t)
                       | Some _ =>
                         (fun m => {| Keyword := Keyword t; Weight := Weight t; Meta := m |})
                           <$> into_map x (Meta t)
                       | None => Some t
                       end) (Some cur) ms = Some req ->
              omitted i ms ->
              (i = 1%nat -> Weight req = Weight cur)
              /\ (i = 2%nat -> Meta req = Meta cur)) as Hinv.
    { intros i ms cur req Hdec Hi. revert cur Hdec.
      induction Hi as [|[k x] ms Hk _ IH]; intros cur Hdec.
      { injection Hdec as <-. done. }
      cbn [foldl mbind option_bind] in Hdec. cbn [fst] in Hk.
      destruct (field ["keyword"; "weight"; "meta"] k) as [[|[|j]]|] eqn:Hf.
      - destruct (into_string x (Keyword cur)) as [s|];
          cbn [fmap option_fmap option_map] in Hdec;
          [|by rewrite foldl_failed in Hdec].
        by destruct (IH _ Hdec).
      - destruct (into_int x (Weight cur)) as [n|];
          cbn [fmap option_fmap option_map] in Hdec;
          [|by rewrite foldl_failed in Hdec].
        destruct (IH _ Hdec) as [IH1 IH2]. split; [|done].
        intros ->. done.
      - destruct (into_map x (Meta cur)) as [m|];
          cbn [fmap option_fmap option_map] in Hdec;
          [|by rewrite foldl_failed in Hdec].
        destruct (IH _ Hdec) as [IH1 IH2]. split; [done|].
        intros ->. apply field_lt in Hf. simpl in Hf.
        destruct j; [done | lia].
      - by apply IH. }
    intros ms req Hdec.
    split; intros Hi; destruct (Hinv _ _ _ _ Hdec Hi) as [H1' H2'];
      [by rewrite H1' | by rewrite H2'].
Qed.

End Service.

(** A negative weight reaches the engine as it was submitted. *)
Lemma negative_weight_is_stored :
  accepted clearance
  /\ exists u, sends clearance (start [answer 201 None]) u
               /\ stored_weight u = Some (AInt (-5)).
Proof.
  split; [split; [vm_compute; discriminate | vm_compute; reflexivity]|].
  exists (update_of clearance). split; vm_compute; reflexivity.
Qed.

Lemma stored_weight_never_zero_witness :
  exists u n,
    sends iphone_again (start [answer 200 None]) u
    /\ stored_weight u = Some (AInt n)
    /\ n = (if (Weight iphone_again =? 0)%Z then 1 else Weight iphone_again)%Z
    /\ n <> 0%Z
    /\ (0 <= Weight iphone_again -> 0 < n)%Z
    /\ (Weight iphone_again < 0 -> n = Weight iphone_again)%Z.
Proof.
  apply (stored_weight_never_zero iphone_again (start [answer 200 None])).
  split; [vm_compute; discriminate | vm_compute; reflexivity].
Defined.

(** A body with a keyword and nothing else: weight 1 and an empty meta are
    stored. *)
Lemma upsert_defaults_witness :
  (exists u,
      sends iphone (start [answer 201 None]) u
      /\ (Weight iphone = 0%Z -> stored_weight u = Some (AInt 1))
      /\ ((0 < Weight iphone)%Z -> stored_weight u = Some (AInt (Weight iphone)))
      /\ (Meta iphone = None -> doc_field "meta" u = Some (AMap (Some ∅)))
      /\ (forall m, Meta iphone = Some m ->
                    doc_field "meta" u = Some (AMap (Some m))))
  /\ decode_upsertRequest (JObject [("keyword", JString "  iPhone 15 ")])
                          {| Keyword := ""; Weight := 0; Meta := None |}
     = Some iphone
  /\ Weight iphone = 0%Z /\ Meta iphone = None.
Proof.
  assert (decode_upsertRequest (JObject [("keyword", JString "  iPhone 15 ")])
                               {| Keyword := ""; Weight := 0; Meta := None |}
          = Some iphone) as Hdec by (vm_compute; reflexivity).
  split; [|split; [exact Hdec|]].
  - apply (proj1 upsert_defaults iphone (start [answer 201 None])).
    split; [vm_compute; discriminate | vm_compute; reflexivity].
  - destruct (proj2 upsert_defaults _ _ Hdec) as [Hw Hm].
    split; [apply Hw | apply Hm]; repeat constructor; vm_compute; discriminate.
Defined.


(** The two submissions: one document, the casing of each. *)
Example iphone_then_IPHONE :
  same_keyword (Keyword iphone) (Keyword iphone_again)
  /\ DocumentID (update_of iphone) = DocumentID (update_of iphone_again)
  /\ doc_field "keyword" (update_of iphone) = Some (AString "iPhone 15")
  /\ doc_field "keyword" (update_of iphone_again) = Some (AString "IPHONE 15").
Proof.
  split; [|split; [|split]; vm_compute; reflexivity].
  exists (bytes "  "), (bytes "iPhone 15"), (bytes " "),
         [], (bytes "IPHONE 15"), [].
  split; [reflexivity|]. split; [reflexivity|].
  split; [simpl; white_space|]. split; [simpl; white_space|].
  split; [white_space|]. split; [white_space|].
  split; [split; reflexivity|]. split; [split; reflexivity|].
  unfold same_letters. vm_compute. repeat constructor.
Qed.
End upsert.

(** ** Suggestions *)
Module suggestions.
Import unicode strings json_lib http esapi main keyword wire sample.
Import json_facts response_facts service_facts.
#[local] Open Scope string_scope.

Section Service.
Context `{JSONLib} `{Engine}.

(** [suggest] asks the engine once; what it returns depends on the
    answer alone. *)
Lemma suggest_answered q w res s :
  perform (asked q) (engine w) = (inr res, s) ->
  IsError res = false ->
  suggest q w
  = (match res.(esapi.Body) ≫= (fun j => decode_parsed j {| Suggest := ∅ |}) with
     | None =>
       ([], Some (fmt_Errorf "응답 파싱 실패: %w"
                             (OpError (lib_error "json: cannot decode"))))
     | Some parsed =>
       (flat_map (fun bucket => map Text (Options bucket))
                 (default [] (Suggest parsed !! "ac")), None)
     end,
     {| engine := s; trace := trace w ++ [Call (asked q)] |}).
Proof.
  intros Hp Hok. unfold suggest, Marshal.
  repeat first [rewrite marshals_singleton | rewrite marshals_insert by done].
  cbn [marshals andb]. cbv iota. unfold bind, Do, ret. fold (asked q).
  rewrite Hp, Hok.
  by destruct (esapi.Body res ≫= _).
Qed.

(** C4. When the engine answers the completion query with a response of
    the expected form, [suggest] returns the texts of all the options of
    the group [ac], entry after entry and option after option in the
    order of the response, and no error; when no entry has an option,
    what it returns is the empty sequence, and no error. *)
Theorem suggest_flattens q w res s j tss :
  perform (asked q) (engine w) = (inr res, s) ->
  IsError res = false ->
  esapi.Body res = Some j ->
  is_response j tss ->
  suggest q w
  = ((concat tss, None), {| engine := s; trace := trace w ++ [Call (asked q)] |})
  /\ (Forall (fun ts => ts = []) tss -> (suggest q w).1 = ([], None)).
Proof.
  intros Hp Hok Hj Hshape.
  assert (suggest q w
          = ((concat tss, None),
             {| engine := s; trace := trace w ++ [Call (asked q)] |})) as E.
  { rewrite (suggest_answered q w res s Hp Hok), Hj. cbn [mbind option_bind].
    destruct (decode_parsed_shape j tss {| Suggest := ∅ |} Hshape)
      as (parsed & -> & ->).
    cbn [default from_option id]. by rewrite flatten_texts. }
  split; [exact E|]. intros Hempty. rewrite E. cbn [fst]. f_equal.
  clear -Hempty. induction Hempty as [|ts tss -> _ IH]; [done|]. exact IH.
Qed.

(** C7, as the code has it. When the body of a response that carries no
    error status is not JSON, or holds a value of another JSON type
    where [suggest], a group, an entry, [options], an option or [text]
    is expected, [suggest] reports a failure. A body that is an object
    without a member for [suggest] is no failure: [suggest] returns the
    empty sequence and no error. *)
Theorem suggest_bad_response q w res s :
  perform (asked q) (engine w) = (inr res, s) ->
  IsError res = false ->
  ((esapi.Body res = None
    \/ exists j, esapi.Body res = Some j /\ bad_response j) ->
   exists e, (suggest q w).1 = ([], Some e))
  /\ (forall ms, esapi.Body res = Some (JObject ms) -> skipped "suggest" ms ->
                 (suggest q w).1 = ([], None)).
Proof.
  intros Hp Hok. rewrite (suggest_answered q w res s Hp Hok). cbn [fst].
  split.
  - intros [-> | (j & -> & Hbad)]; cbn [mbind option_bind].
    + eexists; reflexivity.
    + rewrite decode_parsed_bad by done. eexists; reflexivity.
  - intros ms -> Hms. cbn [mbind option_bind].
    by rewrite decode_parsed_without.
Qed.
End Service.

Lemma completions_shape :
  is_response completions [["iphone 15"; "iphone 14"]].
Proof.
  exists [JObject
            [("text", JString "iph");
             ("offset", JNumber "0");
             ("length", JNumber "3");
             ("options",
              JArray
                [JObject [("text", JString "iphone 15");
                          ("_index", JString "autocomplete");
                          ("_score", JNumber "3.0")];
                 JObject [("text", JString "iphone 14");
                          ("_index", JString "autocomplete");
                          ("_score", JNumber "1.0")]])]].
  split.
  { exists [("took", JNumber "3"); ("timed_out", JBool false)], "suggest", [].
    split; [reflexivity|]. split; [by repeat constructor|].
    split; [by eexists|]. constructor. }
  constructor; [|constructor].
  eexists. split.
  { exists [("text", JString "iph"); ("offset", JNumber "0"); ("length", JNumber "3")],
           "options", [].
    split; [reflexivity|]. split; [by repeat constructor|].
    split; [by eexists|]. constructor. }
  constructor; [|constructor; [|constructor]].
  - exists [], "text", [("_index", JString "autocomplete"); ("_score", JNumber "3.0")].
    split; [reflexivity|]. split; [constructor|].
    split; [by eexists|]. by repeat constructor.
  - exists [], "text", [("_index", JString "autocomplete"); ("_score", JNumber "1.0")].
    split; [reflexivity|]. split; [constructor|].
    split; [by eexists|]. by repeat constructor.
Qed.

Lemma suggest_flattens_witness :
  suggest "iph" (start [answer 200 (Some completions)])
  = ((concat [["iphone 15"; "iphone 14"]], None),
     {| engine := []; trace := trace (start []) ++ [Call (asked "iph")] |})
  /\ (Forall (fun ts => ts = []) [["iphone 15"; "iphone 14"]] ->
      (suggest "iph" (start [answer 200 (Some completions)])).1 = ([], None)).
Proof.
  apply (suggest_flattens "iph" (start [answer 200 (Some completions)])
                          {| StatusCode := 200; esapi.Body := Some completions |}
                          [] completions [["iphone 15"; "iphone 14"]]).
  - reflexivity.
  - reflexivity.
  - reflexivity.
  - exact completions_shape.
Defined.

(** A prefix that matches nothing: one entry without options. *)
Example suggest_no_match :
  (suggest "zzz"
     (start [answer 200
               (Some (JObject
                  [("suggest",
                    JObject [("ac",
                              JArray [JObject [("text", JString "zzz");
                                               ("options", JArray [])]])])]))])).1
  = ([], None).
Proof. vm_compute. reflexivity. Qed.

(** An answer without any of the expected members is no failure. *)
Lemma suggest_empty_object :
  (suggest "iph" (start [answer 200 (Some (JObject []))])).1 = ([], None).
Proof. vm_compute. reflexivity. Qed.

(** An answer whose [options] is a string instead of an array. *)
Lemma suggest_bad_response_witness :
  exists e,
    (suggest "iph"
       (start [answer 200
                 (Some (JObject
                    [("suggest",
                      JObject [("ac",
                                JArray [JObject [("options", JString "none")]])])]))])).1
    = ([], Some e).
Proof.
  apply (suggest_bad_response
           "iph"
           (start [answer 200
                     (Some (JObject
                        [("suggest",
                          JObject [("ac",
                                    JArray [JObject [("options", JString "none")]])])]))])
           {| StatusCode := 200;
              esapi.Body :=
                Some (JObject
                        [("suggest",
                          JObject [("ac",
                                    JArray [JObject [("options", JString "none")]])])]) |}
           []).
  - reflexivity.
  - reflexivity.
  - right. eexists. split; [reflexivity|].
    right. exists [("suggest", JObject [("ac", JArray [JObject [("options", JString "none")]])])],
                  "suggest", (JObject [("ac", JArray [JObject [("options", JString "none")]])]).
    split; [reflexivity|]. split; [by left|]. split; [by eexists|].
    right. exists [("ac", JArray [JObject [("options", JString "none")]])],
                  "ac", (JArray [JObject [("options", JString "none")]]).
    split; [reflexivity|]. split; [by left|].
    right. exists [JObject [("options", JString "none")]],
                  (JObject [("options", JString "none")]).
    split; [reflexivity|]. split; [by left|].
    right. exists [("options", JString "none")], "options", (JString "none").
    split; [reflexivity|]. split; [by left|]. split; [by eexists|].
    by left.
Defined.
End suggestions.

(** ** The identifier is a digest in hexadecimal *)
Module digest.
Import main forms utf8_facts.

Lemma bytes_length s : length (bytes s) = String.length s.
Proof. induction s as [|a s IH]; [done|]. simpl. by rewrite IH. Qed.

Lemma Sum_length data : length (sha1.Sum data) = 20%nat.
Proof.
  unfold sha1.Sum.
  lazymatch goal with
  | |- context [sha1.blocks ?n ?h ?p] =>
    destruct (sha1.blocks n h p) as [[[[h0 h1] h2] h3] h4]
  end.
  reflexivity.
Qed.

Lemma digit_hex b :
  lower_hex (hex.digit (Z.shiftr (bv b) 4))
  /\ lower_hex (hex.digit (Z.land (bv b) 0x0F)).
Proof.
  destruct b as [[] [] [] [] [] [] [] []]; unfold lower_hex;
    (split; first [left; split; vm_compute; congruence
                  | right; split; vm_compute; congruence]).
Qed.

Lemma EncodeToString_hex src :
  String.length (hex.EncodeToString src) = (2 * length src)%nat
  /\ Forall lower_hex (bytes (hex.EncodeToString src)).
Proof.
  rewrite <- bytes_length. unfold hex.EncodeToString. rewrite bytes_of_bytes.
  induction src as [|b src [IH1 IH2]]; [by split|].
  destruct (digit_hex b) as [Hhi Hlo].
  cbn [flat_map app length]. split; [rewrite IH1; lia|].
  constructor; [exact Hhi|]. constructor; [exact Hlo | exact IH2].
Qed.

(** X1. Whatever the keyword, the identifier [docID] makes is a string of
    forty lower-case hexadecimal digits. *)
Theorem docID_hex `{unicode.CaseTable} keyword :
  String.length (docID keyword) = 40%nat
  /\ Forall lower_hex (bytes (docID keyword)).
Proof.
  unfold docID. destruct (EncodeToString_hex
    (sha1.Sum (bytes (strings.ToLower (strings.TrimSpace keyword))))) as [Hl Hd].
  split; [|exact Hd]. by rewrite Hl, Sum_length.
Qed.
End digest.

(** ** What becomes of an upsert *)
Module upsert_outcome.
Import unicode strings json_lib http esapi main keyword wire forms sample cases.
Import utf8_facts trim_facts json_facts service_facts.
#[local] Open Scope string_scope.

Section Service.
Context `{CaseTable} `{JSONLib} `{Engine}.

(** An accepted request is one call, and the answer decides. *)
Lemma upsertKeyword_run req w :
  accepted req ->
  upsertKeyword req w
  = (match (updated req w).1 with
     | inl err => Some (fmt_Errorf "업서트 요청 실패: %w" (OpError err))
     | inr res =>
       if IsError res
       then Some (fmt_Errorf "업서트 응답 에러: %s" (OpResponse res))
       else None
     end,
     {| engine := (updated req w).2;
        trace := trace w ++ [Call (Update (update_of req))] |}).
Proof.
  intros Hacc.
  assert (upsertKeyword req w
          = bind (Do (Update (update_of req)))
                 (fun r =>
                    match r with
                    | inl err =>
                      ret (Some (fmt_Errorf "업서트 요청 실패: %w" (OpError err)))
                    | inr res =>
                      if IsError res
                      then ret (Some (fmt_Errorf "업서트 응답 에러: %s"
                                                 (OpResponse res)))
                      else ret None
                    end) w) as ->.
  { destruct req as [kw wt meta]. destruct Hacc as [Hkw Hm].
    unfold upsertKeyword, update_of. cbn [Keyword Weight Meta] in *.
    destruct (String.eqb_spec (TrimSpace kw) "") as [E | _]; [done|].
    destruct (wt =? 0)%Z, meta as [m|];
      cbn [Keyword Weight Meta default from_option id] in *;
      unfold Marshal; rewrite marshals_payload;
      first [rewrite Hm | change (marshals (AMap (Some ∅))) with true];
      reflexivity. }
  unfold bind, Do, ret, updated.
  destruct (perform (Update (update_of req)) (engine w)) as [[err | res] s];
    cbn [fst snd]; [done|]. by destruct (IsError res).
Qed.

(** A request that is not accepted is an error, and nothing else. *)
Lemma upsertKeyword_refused req w :
  ~ accepted req ->
  upsertKeyword req w
  = (Some (if String.eqb (TrimSpace (Keyword req)) ""
           then errors_New "keyword가 비어 있음"
           else fmt_Errorf "payload 직렬화 실패: %w"
                           (OpError (lib_error "json: unsupported value"))),
     w).
Proof.
  destruct req as [kw wt meta]. unfold accepted, upsertKeyword.
  cbn [Keyword Weight Meta]. intros Hno.
  destruct (String.eqb_spec (TrimSpace kw) "") as [E | N]; [reflexivity|].
  assert (marshals (AMap meta) = false) as Hm.
  { destruct (marshals (AMap meta)); [|reflexivity].
    exfalso. apply Hno. split; [exact N | reflexivity]. }
  clear Hno.
  destruct (wt =? 0)%Z, meta as [m|];
    cbn [Keyword Weight Meta] in *;
    unfold Marshal; rewrite marshals_payload;
    first [rewrite Hm | discriminate Hm];
    reflexivity.
Qed.

Lemma accepted_dec req : accepted req \/ ~ accepted req.
Proof.
  unfold accepted.
  destruct (String.eqb_spec (TrimSpace (Keyword req)) "") as [E | N];
    [right; by intros [? _]|].
  destruct (marshals (AMap (Meta req))); [by left|].
  right. by intros [_ ?].
Qed.

(** X2. [upsertKeyword] returns no error exactly when the request is
    accepted -- its keyword is not empty once trimmed and its meta can be
    encoded -- and the engine answers the update with a response whose
    status is at most 299. *)
Theorem upsertKeyword_succeeds_iff req w :
  (upsertKeyword req w).1 = None
  <-> accepted req
      /\ exists res, (updated req w).1 = inr res /\ (StatusCode res <= 299)%Z.
Proof.
  destruct (accepted_dec req) as [Hacc | Hno].
  - rewrite (upsertKeyword_run req w Hacc). cbn [fst].
    destruct (updated req w).1 as [err | res].
    + split; [done|]. by intros [_ (res & [=] & _)].
    + unfold IsError. destruct (Z.ltb_spec 299 (StatusCode res)) as [Hbad | Hok].
      * split; [done|]. intros [_ (res' & [= <-] & Hle)]. lia.
      * split; [|done]. intros _. split; [done|]. by exists res.
  - rewrite (upsertKeyword_refused req w Hno). cbn [fst].
    split; [discriminate|]. by intros [Hacc _].
Qed.

(** X3. The validation error is returned for the keywords made of white
    space only (the empty one too), and for no other. *)
Theorem upsertKeyword_validation_iff req w :
  (upsertKeyword req w).1 = Some (errors_New "keyword가 비어 있음")
  <-> white (bytes (Keyword req)).
Proof.
  rewrite <- TrimSpace_empty. split.
  - intros Hres. destruct (String.eqb_spec (TrimSpace (Keyword req)) "") as [E | N];
      [done|]. exfalso.
    destruct (accepted_dec req) as [Hacc | Hno].
    + rewrite (upsertKeyword_run req w Hacc) in Hres. cbn [fst] in Hres.
      destruct (updated req w).1 as [err | res]; [done|].
      by destruct (IsError res).
    + rewrite (upsertKeyword_refused req w Hno) in Hres. cbn [fst] in Hres.
      destruct (String.eqb_spec (TrimSpace (Keyword req)) "") as [E | _];
        [by apply N | discriminate Hres].
  - intros E. unfold upsertKeyword. by rewrite E.
Qed.

(** X4. A request whose meta cannot be encoded (it holds a NaN or an
    infinity) is refused with the encoding error, and the world is left
    as it was: no call reaches the engine. *)
Theorem upsertKeyword_unencodable req w :
  TrimSpace (Keyword req) <> "" ->
  marshals (AMap (Meta req)) = false ->
  exists e,
    upsertKeyword req w
    = (Some (fmt_Errorf "payload 직렬화 실패: %w" (OpError e)), w).
Proof.
  destruct req as [kw wt meta]. unfold upsertKeyword.
  cbn [Keyword Weight Meta]. intros Hkw Hm.
  destruct (String.eqb_spec (TrimSpace kw) "") as [E | _]; [done|].
  destruct (wt =? 0)%Z, meta as [m|];
    cbn [Keyword Weight Meta] in *;
    unfold Marshal; rewrite marshals_payload;
    first [rewrite Hm | discriminate Hm];
    eexists; reflexivity.
Qed.

(** X5. Whatever the request and the engine, [upsertKeyword] leaves the
    world as it was or makes one call and no more: an update of the index
    [autocomplete], flagged [doc_as_upsert], of the document that [docID]
    names for the keyword of the request. It reads nothing and logs
    nothing. *)
Theorem upsertKeyword_single_update req w :
  (upsertKeyword req w).2 = w
  \/ exists u,
       (upsertKeyword req w).2
       = {| engine := (perform (Update u) (engine w)).2;
            trace := trace w ++ [Call (Update u)] |}
       /\ Index u = indexName
       /\ DocumentID u = docID (Keyword req)
       /\ upsert_flag u = Some (ABool true).
Proof.
  destruct (accepted_dec req) as [Hacc | Hno].
  - right. exists (update_of req).
    rewrite (upsertKeyword_run req w Hacc). cbn [snd].
    split; [done|]. split; [done|]. split; [apply docID_trimmed | done].
  - left. by rewrite (upsertKeyword_refused req w Hno).
Qed.

(** X6. The keyword stored for an accepted request is the submitted one
    without a run of white space at its start and one at its end, and
    nothing else is changed: it is not empty, it neither starts nor ends
    with white space, and trimming it again changes nothing. *)
Theorem stored_keyword_trimmed req w :
  accepted req ->
  exists u k l r,
    sends req w u
    /\ doc_field "keyword" u = Some (AString k)
    /\ bytes (Keyword req) = (l ++ bytes k ++ r)%list
    /\ white l /\ white r
    /\ k <> "" /\ trimmed (bytes k) /\ TrimSpace k = k.
Proof.
  intros Hacc.
  destruct (trim_decomposition (bytes (Keyword req))) as (l & r & Hl & Hr & E).
  exists (update_of req), (TrimSpace (Keyword req)), l, r.
  split; [by apply upsertKeyword_accepted|].
  split; [apply update_of_keyword|].
  unfold TrimSpace at 1 3. rewrite bytes_of_bytes.
  split; [exact E|]. split; [exact Hl|]. split; [exact Hr|].
  split; [apply Hacc|]. split; [apply trim_trimmed | apply TrimSpace_idempotent].
Qed.

(** X7. When the engine cannot be reached, or answers the update of an
    accepted request with an error status (above 299), [upsertKeyword]
    returns an error that carries the cause: the error of the transport,
    or the response. The update has been sent. *)
Theorem upsertKeyword_engine_failure req w :
  accepted req ->
  sends req w (update_of req)
  /\ (forall err, (updated req w).1 = inl err ->
        (upsertKeyword req w).1
        = Some (fmt_Errorf "업서트 요청 실패: %w" (OpError err)))
  /\ (forall res, (updated req w).1 = inr res -> (299 < StatusCode res)%Z ->
        (upsertKeyword req w).1
        = Some (fmt_Errorf "업서트 응답 에러: %s" (OpResponse res))).
Proof.
  intros Hacc. split; [by apply upsertKeyword_accepted|].
  rewrite (upsertKeyword_run req w Hacc). cbn [fst].
  split; [by intros err ->|]. intros res -> Hbad. unfold IsError.
  by destruct (Z.ltb_spec 299 (StatusCode res)) as [_ | Hok]; [|lia].
Qed.
End Service.

Lemma upsertKeyword_unencodable_witness :
  exists e,
    upsertKeyword not_a_number (start [answer 200 None])
    = (Some (fmt_Errorf "payload 직렬화 실패: %w" (OpError e)),
       start [answer 200 None]).
Proof.
  apply (upsertKeyword_unencodable not_a_number (start [answer 200 None])).
  - vm_compute. discriminate.
  - vm_compute. reflexivity.
Defined.

Lemma stored_keyword_trimmed_witness :
  exists u k l r,
    sends iphone (start [answer 201 None]) u
    /\ doc_field "keyword" u = Some (AString k)
    /\ bytes (Keyword iphone) = (l ++ bytes k ++ r)%list
    /\ white l /\ white r
    /\ k <> "" /\ trimmed (bytes k) /\ TrimSpace k = k.
Proof.
  apply (stored_keyword_trimmed iphone (start [answer 201 None])).
  split; [vm_compute; discriminate | vm_compute; reflexivity].
Defined.

Lemma upsertKeyword_engine_failure_witness :
  sends iphone (start [answer 503 None]) (update_of iphone)
  /\ (forall err, (updated iphone (start [answer 503 None])).1 = inl err ->
        (upsertKeyword iphone (start [answer 503 None])).1
        = Some (fmt_Errorf "업서트 요청 실패: %w" (OpError err)))
  /\ (forall res, (updated iphone (start [answer 503 None])).1 = inr res ->
        (299 < StatusCode res)%Z ->
        (upsertKeyword iphone (start [answer 503 None])).1
        = Some (fmt_Errorf "업서트 응답 에러: %s" (OpResponse res))).
Proof.
  apply (upsertKeyword_engine_failure iphone (start [answer 503 None])).
  split; [vm_compute; discriminate | vm_compute; reflexivity].
Defined.
End upsert_outcome.

(** ** What becomes of a completion query *)
Module suggest_outcome.
Import unicode strings json_lib http esapi main keyword wire forms sample cases.
Import json_facts response_facts service_facts.
#[local] Open Scope string_scope.

Section Service.
Context `{JSONLib} `{Engine}.

(** [suggest] is one call, and the answer decides. *)
Lemma suggest_run q w :
  suggest q w
  = (match (searched q w).1 with
     | inl err => ([], Some (fmt_Errorf "검색 요청 실패: %w" (OpError err)))
     | inr res =>
       if IsError res
       then ([], Some (fmt_Errorf "검색 응답 에러: %s" (OpResponse res)))
       else
         match esapi.Body res ≫= (fun j => decode_parsed j {| Suggest := ∅ |}) with
         | None =>
           ([], Some (fmt_Errorf "응답 파싱 실패: %w"
                                 (OpError (lib_error "json: cannot decode"))))
         | Some parsed => (texts parsed, None)
         end
     end,
     {| engine := (searched q w).2; trace := trace w ++ [Call (asked q)] |}).
Proof.
  unfold suggest, Marshal, searched, texts.
  repeat first [rewrite marshals_singleton | rewrite marshals_insert by done].
  cbn [marshals andb]. cbv iota. unfold bind, Do, ret. fold (asked q).
  destruct (perform (asked q) (engine w)) as [[err | res] s]; cbn [fst snd];
    [reflexivity|].
  destruct (IsError res); [reflexivity|].
  by destruct (esapi.Body res ≫= _).
Qed.

(** X8. Whatever the prefix and the engine, [suggest] makes one call and
    no more: the completion query on the index [autocomplete] with the
    prefix as it was given, not trimmed and not checked (the empty prefix
    is asked too). It reads nothing and logs nothing. *)
Theorem suggest_one_search q w :
  (suggest q w).2
  = {| engine := (perform (asked q) (engine w)).2;
       trace := trace w ++ [Call (asked q)] |}.
Proof. by rewrite suggest_run. Qed.

(** X9. [suggest] returns an error exactly when the engine cannot be
    reached, or answers with an error status (above 299), or with a body
    that does not decode; and with an error it returns no suggestion. *)
Theorem suggest_fails_iff q w :
  ((suggest q w).1.2 <> None
   <-> match (searched q w).1 with
       | inl _ => True
       | inr res =>
         (299 < StatusCode res)%Z
         \/ esapi.Body res ≫= (fun j => decode_parsed j {| Suggest := ∅ |}) = None
       end)
  /\ ((suggest q w).1.2 <> None -> (suggest q w).1.1 = []).
Proof.
  rewrite suggest_run. cbn [fst snd].
  destruct (searched q w).1 as [err | res]; cbn [fst snd]; [done|].
  unfold IsError. destruct (Z.ltb_spec 299 (StatusCode res)) as [Hbad | Hok];
    cbn [fst snd].
  { split; [|done]. split; [by left | done]. }
  destruct (esapi.Body res ≫= _) as [parsed|]; cbn [fst snd].
  - split; [|done]. split; [done|]. intros [Hbad | [=]]. lia.
  - split; [|done]. split; [by right | done].
Qed.

(** Decoding into a slice that is empty: every element starts from the
    zero value. *)
Lemma into_elems_zero {T S} (elem : json -> T -> option T) (zero : T)
      (P : json -> S -> Prop) (mk : S -> T) items ss :
  Forall2 P items ss ->
  (forall x s, P x s -> elem x zero = Some (mk s)) ->
  into_elems elem zero items [] = Some (map mk ss).
Proof.
  intros HP Helem. induction HP as [|x s items ss Hx _ IH]; [done|].
  cbn [into_elems hd tl]. rewrite (Helem _ _ Hx). cbn [mbind option_bind].
  by rewrite IH.
Qed.

Ltac by_field :=
  intros ? ? ? Hf; cbv beta; by rewrite Hf.

Lemma decode_option_loose j t :
  loose_option j t -> decode_option j {| Text := "" |} = Some {| Text := t |}.
Proof.
  intros [Hj | [-> [-> | [Hj | (ms & -> & Hms)]]]].
  - by apply decode_option_shape.
  - reflexivity.
  - unfold decode_option.
    edestruct (into_struct_holds
                 (fun k x t =>
                    match field ["text"] k with
                    | Some _ => (fun s => {| Text := s |}) <$> into_string x (Text t)
                    | None => Some t
                    end) "text" JNull j {| Text := "" |} Hj) as (k & [i Hk] & ->).
    { by_field. }
    by rewrite Hk.
  - unfold decode_option, into_struct.
    apply (foldl_skips
             (fun k x t =>
                match field ["text"] k with
                | Some _ => (fun s => {| Text := s |}) <$> into_string x (Text t)
                | None => Some t
                end)).
    eapply Forall_impl; [exact Hms|]. intros [k x] Hf t. simpl in *. by rewrite Hf.
Qed.

Lemma decode_entry_loose j ts :
  loose_entry j ts ->
  decode_entry j {| Options := [] |}
  = Some {| Options := map Build_parsedOption ts |}.
Proof.
  intros [(items & Hj & Hitems) | [-> [-> | [Hj | (ms & -> & Hms)]]]].
  - unfold decode_entry.
    edestruct (into_struct_holds
                 (fun k x t =>
                    match field ["options"] k with
                    | Some _ =>
                      (fun l => {| Options := l |})
                        <$> into_slice decode_option {| Text := "" |} x (Options t)
                    | None => Some t
                    end) "options" (JArray items) j {| Options := [] |} Hj)
      as (k & [i Hk] & ->).
    { by_field. }
    rewrite Hk. cbn [into_slice Options].
    erewrite into_elems_zero; [done|exact Hitems|].
    intros x s Hx. by apply decode_option_loose.
  - reflexivity.
  - unfold decode_entry.
    edestruct (into_struct_holds
                 (fun k x t =>
                    match field ["options"] k with
                    | Some _ =>
                      (fun l => {| Options := l |})
                        <$> into_slice decode_option {| Text := "" |} x (Options t)
                    | None => Some t
                    end) "options" JNull j {| Options := [] |} Hj)
      as (k & [i Hk] & ->).
    { by_field. }
    by rewrite Hk.
  - unfold decode_entry, into_struct.
    apply (foldl_skips
             (fun k x t =>
                match field ["options"] k with
                | Some _ =>
                  (fun l => {| Options := l |})
                    <$> into_slice decode_option {| Text := "" |} x (Options t)
                | None => Some t
                end)).
    eapply Forall_impl; [exact Hms|]. intros [k x] Hf t. simpl in *. by rewrite Hf.
Qed.

Lemma decode_group_loose j tss :
  is_group j tss -> decode_group j [] = Some (entries tss).
Proof.
  intros [(items & -> & Hitems) | [-> ->]]; [|reflexivity].
  unfold decode_group. cbn [into_slice].
  apply (into_elems_zero decode_entry {| Options := [] |} loose_entry
           (fun ts => {| Options := map Build_parsedOption ts |}) items tss Hitems).
  intros x s Hx. by apply decode_entry_loose.
Qed.

(** The groups are stored one after the other under their names. *)
Lemma decode_groups_loose ms gs (m : gmap string (list parsedEntry)) :
  Forall2 (fun m g => m.1 = g.1 /\ is_group m.2 g.2) ms gs ->
  foldl (fun acc '(k, x) => m ← acc; v ← decode_group x []; Some (<[k := v]> m))
        (Some m) ms
  = Some (foldl (fun m g => <[g.1 := entries g.2]> m) m gs).
Proof.
  intros Hgs. revert m.
  induction Hgs as [|[k x] [n tss] ms gs [Hk Hx] _ IH]; intros m; [done|].
  cbn [fst snd] in Hk, Hx. subst n.
  cbn [foldl mbind option_bind fst snd].
  rewrite (decode_group_loose x tss Hx). cbn [mbind option_bind]. apply IH.
Qed.

(** Of the groups stored, the last one of a name is the one found. *)
Lemma lookup_last_group name gs (m : gmap string (list parsedEntry)) acc :
  default [] (m !! name) = entries acc ->
  default [] (foldl (fun m g => <[g.1 := entries g.2]> m) m gs !! name)
  = entries (foldl (fun acc g => if String.eqb g.1 name then g.2 else acc) acc gs).
Proof.
  revert m acc. induction gs as [|[n tss] gs IH]; intros m acc Hm; [done|].
  cbn [foldl fst snd]. apply IH.
  destruct (String.eqb_spec n name) as [-> | Hn].
  - by rewrite lookup_insert_eq.
  - by rewrite lookup_insert_ne.
Qed.

Lemma decode_parsed_loose j gs :
  has_groups j gs ->
  exists parsed,
    decode_parsed j {| Suggest := ∅ |} = Some parsed
    /\ texts parsed = concat (last_group "ac" gs).
Proof.
  assert (forall m, texts {| Suggest := m |}
                    = flat_map (fun bucket => map Text (Options bucket))
                               (default [] (m !! "ac"))) as Ht by done.
  intros [(ms & Hj & Hgs) | [-> [-> | [Hj | (ms & -> & Hms)]]]].
  - unfold decode_parsed.
    edestruct (into_struct_holds
                 (fun k x t =>
                    match field ["suggest"] k with
                    | Some _ =>
                      (fun m => {| Suggest := m |})
                        <$> into_map_of decode_group [] x (Suggest t)
                    | None => Some t
                    end) "suggest" (JObject ms) j {| Suggest := ∅ |} Hj)
      as (k & [i Hk] & ->).
    { by_field. }
    rewrite Hk. cbn [into_map_of Suggest].
    rewrite (decode_groups_loose ms gs ∅ Hgs).
    eexists. split; [reflexivity|].
    rewrite Ht, (lookup_last_group "ac" gs ∅ []) by done.
    apply flatten_texts.
  - by eexists.
  - unfold decode_parsed.
    edestruct (into_struct_holds
                 (fun k x t =>
                    match field ["suggest"] k with
                    | Some _ =>
                      (fun m => {| Suggest := m |})
                        <$> into_map_of decode_group [] x (Suggest t)
                    | None => Some t
                    end) "suggest" JNull j {| Suggest := ∅ |} Hj)
      as (k & [i Hk] & ->).
    { by_field. }
    rewrite Hk. by eexists.
  - rewrite decode_parsed_without by done. by eexists.
Qed.

(** X10. When the engine answers the query with a response without
    error status whose body has groups under [suggest] -- whatever their
    names and their number, with entries and options that may lack their
    members or be [null] -- [suggest] returns the texts of the last group
    named [ac], in the order of the response, and no error. The other
    groups are left aside, an option without a [text] counts as the
    empty text, and without a group [ac] there is no suggestion. *)
Theorem suggest_any_groups q w res s j gs :
  perform (asked q) (engine w) = (inr res, s) ->
  IsError res = false ->
  esapi.Body res = Some j ->
  has_groups j gs ->
  suggest q w
  = ((concat (last_group "ac" gs), None),
     {| engine := s; trace := trace w ++ [Call (asked q)] |}).
Proof.
  intros Hp Hok Hj Hshape. rewrite suggest_run. unfold searched.
  rewrite Hp. cbn [fst snd]. rewrite Hok, Hj. cbn [mbind option_bind].
  by destruct (decode_parsed_loose j gs Hshape) as (parsed & -> & ->).
Qed.
End Service.

Lemma two_groups_shape :
  has_groups two_groups
    [("brands", [["apple"]]); ("ac", [["iphone 15"; ""; ""]; []])].
Proof.
  assert (forall t, is_option (JObject [("text", JString t)]) t) as Hopt.
  { intros t. exists [], "text", [].
    split; [reflexivity|]. split; [constructor|]. split; [by eexists | constructor]. }
  assert (forall v, holds "options" v (JObject [("options", v)])) as Hopts.
  { intros v. exists [], "options", [].
    split; [reflexivity|]. split; [constructor|]. split; [by eexists | constructor]. }
  left. eexists. split.
  { exists [("took", JNumber "2")], "suggest", [].
    split; [reflexivity|]. split; [by repeat constructor|].
    split; [by eexists | constructor]. }
  constructor; [|constructor; [|constructor]]; (split; [reflexivity|]); cbn [snd].
  - left. eexists. split; [reflexivity|].
    constructor; [|constructor]. left. eexists. split; [apply Hopts|].
    constructor; [|constructor]. left. apply Hopt.
  - left. eexists. split; [reflexivity|].
    constructor; [|constructor; [|constructor]].
    + left. eexists. split; [apply Hopts|].
      constructor; [|constructor; [|constructor; [|constructor]]].
      * left. apply Hopt.
      * right. split; [reflexivity|]. right. right. eexists.
        split; [reflexivity|]. by repeat constructor.
      * right. split; [reflexivity|]. by left.
    + right. split; [reflexivity|]. right. left. apply Hopts.
Qed.

Lemma suggest_any_groups_witness :
  suggest "iph" (start [answer 200 (Some two_groups)])
  = ((concat (last_group "ac"
                [("brands", [["apple"]]); ("ac", [["iphone 15"; ""; ""]; []])]),
      None),
     {| engine := []; trace := trace (start []) ++ [Call (asked "iph")] |}).
Proof.
  apply (suggest_any_groups "iph" (start [answer 200 (Some two_groups)])
                            {| StatusCode := 200; esapi.Body := Some two_groups |}
                            [] two_groups).
  - reflexivity.
  - reflexivity.
  - reflexivity.
  - exact two_groups_shape.
Defined.
End suggest_outcome.

(** ** The handlers *)
Module handlers.
Import unicode strings json_lib http esapi main keyword wire forms sample cases.
Import utf8_facts trim_facts json_facts response_facts service_facts.
Import upsert_outcome suggest_outcome.
#[local] Open Scope string_scope.

Section Service.
Context `{CaseTable} `{JSONLib} `{Engine}.

(** A POST to [/keywords]: the body is read, then the request is
    upserted. *)
Lemma handleKeywords_run r w :
  Method r = MethodPost ->
  handleKeywords r w
  = match decoded r with
    | None => (http_Error "잘못된 요청 본문" StatusBadRequest, read w)
    | Some req =>
      match (upsertKeyword req (read w)).1 with
      | Some e =>
        (http_Error "업서트 실패" StatusInternalServerError,
         logged "upsert 실패: %v" e (upsertKeyword req (read w)).2)
      | None =>
        ({| Code := StatusCreated; ContentType := None; Content := Empty |},
         (upsertKeyword req (read w)).2)
      end
    end.
Proof.
  intros Hm. unfold handleKeywords, Decode, decoded. rewrite Hm.
  change (negb (MethodPost =? MethodPost)%string) with false. cbv iota.
  unfold bind at 1 2. unfold emit at 1, ret at 1. fold (read w).
  destruct (http.Body r ≫= _) as [req|]; [|reflexivity].
  unfold bind. destruct (upsertKeyword req (read w)) as [[e|] w']; reflexivity.
Qed.

Lemma updated_read req w : updated req (read w) = updated req w.
Proof. reflexivity. Qed.

(** X11. A POST to [/keywords] is answered 400 exactly when its body
    does not decode into a request, and 201 exactly when it decodes into
    an accepted request that the engine answers with a status of at most
    299; in every other case the answer is 500. *)
Theorem handleKeywords_codes r w :
  Method r = MethodPost ->
  (Code (handleKeywords r w).1 = 400 <-> decoded r = None)
  /\ (Code (handleKeywords r w).1 = 201
      <-> exists req res,
            decoded r = Some req /\ accepted req
            /\ (updated req w).1 = inr res /\ (StatusCode res <= 299)%Z)
  /\ (Code (handleKeywords r w).1 = 201
      \/ Code (handleKeywords r w).1 = 400
      \/ Code (handleKeywords r w).1 = 500).
Proof.
  intros Hm. rewrite (handleKeywords_run r w Hm).
  destruct (decoded r) as [req|]; cbn [fst Code http_Error].
  2:{ split; [done|]. split; [|by right; left].
      split; [done|]. by intros (req & res & [=] & _). }
  destruct (accepted_dec req) as [Hacc | Hno].
  2:{ rewrite (upsertKeyword_refused req (read w) Hno).
      cbn [fst Code http_Error].
      split; [done|]. split; [|by right; right].
      split; [done|]. by intros (req' & res & [= <-] & Hacc & _). }
  rewrite (upsertKeyword_run req (read w) Hacc), updated_read. cbn [fst].
  destruct (updated req w).1 as [err | res] eqn:Hup; cbn [fst Code http_Error].
  { split; [done|]. split; [|by right; right].
    split; [done|]. intros (req' & res & [= <-] & _ & Hres & _).
    rewrite Hup in Hres. discriminate Hres. }
  unfold IsError. destruct (Z.ltb_spec 299 (StatusCode res)) as [Hbad | Hok];
    cbn [fst Code http_Error].
  - split; [done|]. split; [|by right; right].
    split; [done|]. intros (req' & res' & [= <-] & _ & Hres & Hle).
    rewrite Hup in Hres. injection Hres as <-. lia.
  - split; [done|]. split; [|by left]. split; [|done]. intros _.
    by exists req, res.
Qed.

(** X12. Whatever the request and the engine, the answer of
    [/keywords] is one of four: 405, 400 or 500 with a fixed message, or
    201 without content. Neither the error nor the response of the
    engine reaches the client. *)
Theorem handleKeywords_answers r w :
  In (handleKeywords r w).1
     [http_Error "POST로 요청하세요" 405;
      http_Error "잘못된 요청 본문" 400;
      http_Error "업서트 실패" 500;
      {| Code := 201; ContentType := None; Content := Empty |}].
Proof.
  destruct (String.eqb_spec (Method r) MethodPost) as [Hm | Hm].
  - rewrite (handleKeywords_run r w Hm).
    destruct (decoded r) as [req|]; [|right; by left].
    destruct (upsertKeyword req (read w)).1 as [e|].
    + right; right; by left.
    + right; right; right; by left.
  - left. unfold handleKeywords.
    by destruct (String.eqb_spec (Method r) MethodPost).
Qed.

(** Members that are not stored into a field leave it as it was. *)
Lemma decode_omitted i ms cur req :
  decode_upsertRequest (JObject ms) cur = Some req ->
  omitted i ms ->
  (i = 0%nat -> Keyword req = Keyword cur)
  /\ (i = 1%nat -> Weight req = Weight cur)
  /\ (i = 2%nat -> Meta req = Meta cur).
Proof.
  unfold decode_upsertRequest, into_struct. intros Hdec Hi. revert cur Hdec.
  induction Hi as [|[k x] ms Hk _ IH]; intros cur Hdec.
  { injection Hdec as <-. done. }
  cbn [foldl mbind option_bind] in Hdec. cbn [fst] in Hk.
  destruct (field ["keyword"; "weight"; "meta"] k) as [[|[|j]]|] eqn:Hf.
  - destruct (into_string x (Keyword cur)) as [s|];
      cbn [fmap option_fmap option_map] in Hdec;
      [|by rewrite foldl_failed in Hdec].
    destruct (IH _ Hdec) as (IH0 & IH1 & IH2).
    split; [by intros ->|]. done.
  - destruct (into_int x (Weight cur)) as [n|];
      cbn [fmap option_fmap option_map] in Hdec;
      [|by rewrite foldl_failed in Hdec].
    destruct (IH _ Hdec) as (IH0 & IH1 & IH2).
    split; [done|]. split; [by intros ->|]. done.
  - destruct (into_map x (Meta cur)) as [m|];
      cbn [fmap option_fmap option_map] in Hdec;
      [|by rewrite foldl_failed in Hdec].
    destruct (IH _ Hdec) as (IH0 & IH1 & IH2).
    split; [done|]. split; [done|].
    intros ->. apply field_lt in Hf. simpl in Hf.
    destruct j; [done | lia].
  - by apply IH.
Qed.

(** X13. A POST to [/keywords] whose body decodes into a request with a
    keyword of white space only is answered 500, not 400: the
    validation error of [upsertKeyword] is logged as a failed upsert,
    and no call reaches the engine. So it is for a body that is an
    object without a member for [keyword], and for the body [null]. *)
Theorem handleKeywords_blank_keyword r w :
  Method r = MethodPost ->
  (forall req,
      decoded r = Some req -> white (bytes (Keyword req)) ->
      handleKeywords r w
      = (http_Error "업서트 실패" 500,
         logged "upsert 실패: %v" (errors_New "keyword가 비어 있음") (read w)))
  /\ (forall ms req,
         http.Body r = Some (JObject ms) -> decoded r = Some req ->
         omitted 0 ms -> Keyword req = "")
  /\ (http.Body r = Some JNull ->
      decoded r = Some {| Keyword := ""; Weight := 0; Meta := None |}).
Proof.
  intros Hm. split; [|split].
  - intros req Hdec Hw. rewrite (handleKeywords_run r w Hm), Hdec.
    unfold upsertKeyword. by rewrite (TrimSpace_white _ Hw).
  - intros ms req Hb. unfold decoded. rewrite Hb. cbn [mbind option_bind].
    intros Hdec Hom. by destruct (decode_omitted 0 ms _ req Hdec Hom) as [-> _].
  - intros Hb. unfold decoded. by rewrite Hb.
Qed.

Lemma into_int_bad x cur : no_int x -> into_int x cur = None.
Proof. by destruct x. Qed.

Lemma into_map_bad x cur : no_object x -> into_map x cur = None.
Proof. by destruct x. Qed.

Lemma decode_upsertRequest_bad j cur :
  bad_body j -> decode_upsertRequest j cur = None.
Proof.
  intros [Hj | (ms & k & x & -> & Hin & Hx)]; [by destruct j|].
  unfold decode_upsertRequest, into_struct.
  eapply foldl_fails; [exact Hin|]. intros t. cbv beta.
  destruct Hx as [[-> Hx] | [[-> Hx] | [-> Hx]]].
  - by rewrite into_string_bad.
  - by rewrite into_int_bad.
  - by rewrite into_map_bad.
Qed.

(** X14. A POST to [/keywords] whose body is not JSON, or is a JSON
    value that has not the types of a request -- no object, a [keyword]
    that is no string, a [weight] that is no integer (a number with a
    fraction or an exponent too), a [meta] that is no object -- is
    answered 400 once the body is read, and no call reaches the
    engine. *)
Theorem handleKeywords_bad_body r w :
  Method r = MethodPost ->
  (http.Body r = None \/ exists j, http.Body r = Some j /\ bad_body j) ->
  handleKeywords r w = (http_Error "잘못된 요청 본문" 400, read w).
Proof.
  intros Hm Hb. rewrite (handleKeywords_run r w Hm).
  assert (decoded r = None) as ->; [|reflexivity].
  unfold decoded. destruct Hb as [-> | (j & -> & Hbad)]; [reflexivity|].
  cbn [mbind option_bind]. by apply decode_upsertRequest_bad.
Qed.

(** X15. A POST to [/keywords] whose body decodes into an accepted
    request that the engine answers with a status of at most 299 is
    answered 201 without content; the body has been read and the update
    of the request sent, and that is all. *)
Theorem handleKeywords_created r w req res s :
  Method r = MethodPost ->
  decoded r = Some req ->
  accepted req ->
  updated req w = (inr res, s) ->
  (StatusCode res <= 299)%Z ->
  handleKeywords r w
  = ({| Code := 201; ContentType := None; Content := Empty |},
     {| engine := s;
        trace := trace w ++ [ReadBody; Call (Update (update_of req))] |}).
Proof.
  intros Hm Hdec Hacc Hup Hle. rewrite (handleKeywords_run r w Hm), Hdec.
  rewrite (upsertKeyword_run req (read w) Hacc), updated_read, Hup.
  cbn [fst snd]. unfold IsError.
  destruct (Z.ltb_spec 299 (StatusCode res)) as [Hbad | _]; [lia|].
  cbv iota. f_equal. unfold read. cbn [trace]. by rewrite <- app_assoc.
Qed.

(** A request to [/suggest]: the prefix is trimmed, then searched. *)
Lemma handleSuggest_run r w :
  TrimSpace (Get (Query r) "q") <> "" ->
  handleSuggest r w
  = match (suggest (TrimSpace (Get (Query r) "q")) w).1 with
    | (_, Some e) =>
      (http_Error "검색 실패" StatusInternalServerError,
       logged "suggest 실패: %v" e (suggest (TrimSpace (Get (Query r) "q")) w).2)
    | (suggestions, None) =>
      (writeJSON {| Suggestions := suggestions |},
       (suggest (TrimSpace (Get (Query r) "q")) w).2)
    end.
Proof.
  intros Hq. unfold handleSuggest.
  destruct (String.eqb_spec (TrimSpace (Get (Query r) "q")) "") as [E | _]; [done|].
  unfold bind.
  by destruct (suggest (TrimSpace (Get (Query r) "q")) w) as [[l [e|]] w'].
Qed.

(** X16. [/suggest] answers 400 exactly when [q] is missing or made of
    white space only, and 200 exactly when the engine answers the query
    with a status of at most 299 and a body that decodes; in every other
    case the answer is 500. The method of the request and its body play
    no part. *)
Theorem handleSuggest_codes r w :
  let q := Get (Query r) "q" in
  (Code (handleSuggest r w).1 = 400 <-> white (bytes q))
  /\ (Code (handleSuggest r w).1 = 200
      <-> ~ white (bytes q)
          /\ exists res parsed,
               (searched (TrimSpace q) w).1 = inr res
               /\ (StatusCode res <= 299)%Z
               /\ esapi.Body res ≫= (fun j => decode_parsed j {| Suggest := ∅ |})
                  = Some parsed)
  /\ (Code (handleSuggest r w).1 = 200
      \/ Code (handleSuggest r w).1 = 400
      \/ Code (handleSuggest r w).1 = 500)
  /\ (forall m b,
         handleSuggest {| Method := m; Query := Query r; http.Body := b |} w
         = handleSuggest r w).
Proof.
  cbv zeta. rewrite <- TrimSpace_empty.
  assert (Code (handleSuggest r w).1
          = if String.eqb (TrimSpace (Get (Query r) "q")) "" then 400
            else match (searched (TrimSpace (Get (Query r) "q")) w).1 with
                 | inl _ => 500
                 | inr res =>
                   if (299 <? StatusCode res)%Z then 500
                   else match esapi.Body res
                              ≫= (fun j => decode_parsed j {| Suggest := ∅ |}) with
                        | Some _ => 200
                        | None => 500
                        end
                 end) as ->.
  { destruct (String.eqb_spec (TrimSpace (Get (Query r) "q")) "") as [E | N].
    { unfold handleSuggest. by rewrite E. }
    rewrite (handleSuggest_run r w N), suggest_run. cbn [fst snd].
    destruct (searched (TrimSpace (Get (Query r) "q")) w).1 as [err | res];
      [reflexivity|].
    unfold IsError. destruct (299 <? StatusCode res)%Z; [reflexivity|].
    by destruct (esapi.Body res ≫= _). }
  destruct (String.eqb_spec (TrimSpace (Get (Query r) "q")) "") as [E | N].
  { split; [done|]. split; [|split; [by right; left | reflexivity]].
    split; [done|]. by intros [[] _]. }
  destruct (searched (TrimSpace (Get (Query r) "q")) w).1 as [err | res].
  { split; [done|]. split; [|split; [by right; right | reflexivity]].
    split; [done|]. by intros [_ (res' & parsed' & [=] & _)]. }
  destruct (Z.ltb_spec 299 (StatusCode res)) as [Hbad | Hok].
  { split; [done|]. split; [|split; [by right; right | reflexivity]].
    split; [done|]. intros [_ (res' & parsed' & [= <-] & Hle & _)]. lia. }
  destruct (esapi.Body res ≫= _) as [parsed|] eqn:Hdec.
  - split; [done|]. split; [|split; [by left | reflexivity]].
    split; [|done]. intros _. split; [done|]. by exists res, parsed.
  - split; [done|]. split; [|split; [by right; right | reflexivity]].
    split; [done|]. intros [_ (res' & parsed' & [= <-] & _ & Hp)].
    rewrite Hdec in Hp. discriminate Hp.
Qed.

(** X17. A request to [/suggest] with a prefix that is not white space
    makes one search, for the trimmed prefix. On success nothing else
    happens; on failure one line is logged, and the client is told a
    fixed message: neither the error nor the response of the engine
    reaches it. *)
Theorem handleSuggest_effects r w :
  let q := TrimSpace (Get (Query r) "q") in
  q <> "" ->
  engine (handleSuggest r w).2 = (searched q w).2
  /\ ((exists l, (handleSuggest r w).1 = writeJSON {| Suggestions := l |}
                 /\ trace (handleSuggest r w).2 = (trace w ++ [Call (asked q)])%list)
      \/ (exists e, (handleSuggest r w).1 = http_Error "검색 실패" 500
                    /\ trace (handleSuggest r w).2
                       = (trace w ++ [Call (asked q);
                                      LogPrintf "suggest 실패: %v" e])%list)).
Proof.
  cbv zeta. intros N. rewrite (handleSuggest_run r w N), suggest_run.
  cbn [fst snd].
  assert (forall e (s : ES),
             trace (logged "suggest 실패: %v" e
                      {| engine := s;
                         trace := trace w
                                  ++ [Call (asked (TrimSpace (Get (Query r) "q")))] |})
             = (trace w ++ [Call (asked (TrimSpace (Get (Query r) "q")));
                            LogPrintf "suggest 실패: %v" e])%list) as Hlog.
  { intros e s. unfold logged. cbn [trace]. by rewrite <- app_assoc. }
  destruct (searched (TrimSpace (Get (Query r) "q")) w) as [[err | res] s];
    cbn [fst snd].
  { split; [done|]. right. eexists. split; [reflexivity | apply Hlog]. }
  destruct (IsError res).
  { split; [done|]. right. eexists. split; [reflexivity | apply Hlog]. }
  destruct (esapi.Body res ≫= _) as [parsed|].
  - split; [done|]. left. by eexists.
  - split; [done|]. right. eexists. split; [reflexivity | apply Hlog].
Qed.

(** X18. From the request to the answer: when [q] is not white space and
    the engine answers the query for the trimmed [q] with a response
    without error status that has groups under [suggest], [/suggest]
    answers 200 with the texts of the last group [ac] as JSON, in the
    order of the response. *)
Theorem handleSuggest_completes r w res s j gs :
  let q := TrimSpace (Get (Query r) "q") in
  q <> "" ->
  perform (asked q) (engine w) = (inr res, s) ->
  IsError res = false ->
  esapi.Body res = Some j ->
  has_groups j gs ->
  handleSuggest r w
  = ({| Code := 200;
        ContentType := Some "application/json";
        Content := Encoded {| Suggestions := concat (last_group "ac" gs) |} |},
     {| engine := s; trace := trace w ++ [Call (asked q)] |}).
Proof.
  cbv zeta. intros N Hp Hok Hj Hshape.
  rewrite (handleSuggest_run r w N), suggest_run. unfold searched.
  rewrite Hp. cbn [fst snd]. rewrite Hok, Hj. cbn [mbind option_bind].
  by destruct (decode_parsed_loose j gs Hshape) as (parsed & -> & ->).
Qed.
End Service.
End handlers.

(** ** What is decoded can be encoded *)
Module encodable.
Import unicode strings json_lib http esapi main keyword wire forms sample cases.
Import utf8_facts trim_facts json_facts.
#[local] Open Scope string_scope.

(** Induction on a JSON text, the elements of an array and the members of
    an object included. *)
Lemma json_nested_ind (P : json -> Prop) :
  P JNull -> (forall b, P (JBool b)) -> (forall lit, P (JNumber lit)) ->
  (forall s, P (JString s)) ->
  (forall items, Forall P items -> P (JArray items)) ->
  (forall ms, Forall (fun m => P m.2) ms -> P (JObject ms)) ->
  forall j, P j.
Proof.
  intros HN HB HNum HS HA HO. fix IH 1. intros [| b | lit | s | items | ms].
  - exact HN.
  - apply HB.
  - apply HNum.
  - apply HS.
  - apply HA. induction items as [|x items IHi]; constructor; [apply IH | exact IHi].
  - apply HO. induction ms as [|[k x] ms IHm]; constructor; [apply IH | exact IHm].
Qed.

(** A map can be encoded when all its values can. *)
Lemma marshals_map (m : gmap string any) :
  marshals (AMap (Some m)) = true <-> map_Forall (fun _ v => marshals v = true) m.
Proof.
  induction m as [|k v m Hk _ IH] using map_first_key_ind.
  - split; [intros _; apply map_Forall_empty | reflexivity].
  - rewrite marshals_insert, andb_true_iff, IH, map_Forall_insert by done. done.
Qed.

Section Decoding.
Context `{JSONLib}.

(** [strconv.ParseFloat] gives an error, not an infinity, for a literal
    out of the range of [float64], and no literal of JSON is a NaN. *)
Hypothesis finite :
  forall lit bits, ParseFloat lit = Some bits -> marshals (AFloat64 bits) = true.

Lemma into_any_marshals j : forall v, into_any j = Some v -> marshals v = true.
Proof.
  induction j as [| b | lit | s | items Hitems | ms Hms] using json_nested_ind;
    intros v; cbn [into_any].
  - by intros [= <-].
  - by intros [= <-].
  - destruct (ParseFloat lit) as [bits|] eqn:E; [|done].
    intros [= <-]. by apply (finite lit).
  - by intros [= <-].
  - revert v. induction Hitems as [|x items Hx _ IH]; intros v.
    + by intros [= <-].
    + destruct (into_any x) as [v0|] eqn:E0; [|done]. cbn [mbind option_bind].
      lazymatch goal with
      | |- context [?t ≫= _] => destruct t as [vs|] eqn:E1
      end; [|done].
      intros [= <-]. cbn [marshals forallb].
      rewrite (Hx v0 eq_refl). apply (IH (ASlice vs)). reflexivity.
  - assert (forall m : gmap string any,
               map_Forall (fun _ v => marshals v = true) m ->
               forall v,
                 (fun m => AMap (Some m)) <$>
                 (fix entries (l : list (string * json)) (m : gmap string any)
                    : option (gmap string any) :=
                    match l with
                    | [] => Some m
                    | (k, x) :: l' => v ← into_any x; entries l' (<[k := v]> m)
                    end) ms m = Some v ->
                 marshals v = true) as Hgen.
    { clear v. induction Hms as [|[k x] ms Hx _ IH]; intros m Hm v.
      - intros [= <-]. by apply marshals_map.
      - cbn [snd] in Hx. destruct (into_any x) as [v0|]; [|done].
        cbn [mbind option_bind]. apply IH.
        apply map_Forall_insert_2; [exact (Hx v0 eq_refl) | exact Hm]. }
    apply Hgen, map_Forall_empty.
Qed.

Lemma into_map_marshals x cur m :
  marshals (AMap cur) = true -> into_map x cur = Some m ->
  marshals (AMap m) = true.
Proof.
  intros Hcur. destruct x as [| | | | |ms]; try done; cbn [into_map].
  { by intros [= <-]. }
  assert (map_Forall (fun _ v => marshals v = true) (default ∅ cur)) as Hm0.
  { destruct cur as [m0|]; [by apply marshals_map | apply map_Forall_empty]. }
  revert Hm0. generalize (default ∅ cur). clear Hcur.
  induction ms as [|[k y] ms IH]; intros m0 Hm0.
  - intros [= <-]. by apply marshals_map.
  - cbn [foldl mbind option_bind].
    destruct (into_any y) as [v|] eqn:Ey; cbn [mbind option_bind].
    + apply IH. apply map_Forall_insert_2; [|exact Hm0].
      by apply (into_any_marshals y).
    + rewrite (foldl_failed (fun k x m => v ← into_any x; Some (<[k := v]> m))).
      discriminate.
Qed.

Lemma decode_upsertRequest_marshals j cur req :
  marshals (AMap (Meta cur)) = true ->
  decode_upsertRequest j cur = Some req ->
  marshals (AMap (Meta req)) = true.
Proof.
  unfold decode_upsertRequest, into_struct.
  destruct j as [| | | | |ms]; try done; [by intros ? [= <-]|].
  revert cur. induction ms as [|[k x] ms IH]; intros cur Hcur Hdec.
  { by injection Hdec as <-. }
  cbn [foldl mbind option_bind] in Hdec.
  destruct (field ["keyword"; "weight"; "meta"] k) as [[|[|i]]|].
  - destruct (into_string x (Keyword cur)) as [s|];
      cbn [fmap option_fmap option_map] in Hdec;
      [|by rewrite foldl_failed in Hdec].
    eapply IH; [|exact Hdec]. exact Hcur.
  - destruct (into_int x (Weight cur)) as [n|];
      cbn [fmap option_fmap option_map] in Hdec;
      [|by rewrite foldl_failed in Hdec].
    eapply IH; [|exact Hdec]. exact Hcur.
  - destruct (into_map x (Meta cur)) as [m|] eqn:Em;
      cbn [fmap option_fmap option_map] in Hdec;
      [|by rewrite foldl_failed in Hdec].
    eapply IH; [|exact Hdec]. exact (into_map_marshals x (Meta cur) m Hcur Em).
  - by apply (IH _ Hcur Hdec).
Qed.

(** X19. Provided the numbers of a JSON text are read as finite
    [float64], every request decoded from the body of a POST can be
    encoded again, whatever its meta holds: the only requests
    [upsertKeyword] refuses from [/keywords] are those with a keyword of
    white space only, and its encoding error cannot occur there. *)
Theorem decoded_request_encodable `{CaseTable} `{Engine} r req w :
  decoded r = Some req ->
  marshals (AMap (Meta req)) = true
  /\ (accepted req <-> ~ white (bytes (Keyword req)))
  /\ forall e, (upsertKeyword req w).1
               <> Some (fmt_Errorf "payload 직렬화 실패: %w" (OpError e)).
Proof.
  unfold decoded. destruct (http.Body r) as [j|]; [|done].
  cbn [mbind option_bind]. intros Hdec.
  assert (marshals (AMap (Meta req)) = true) as Hm.
  { eapply decode_upsertRequest_marshals; [|exact Hdec]. reflexivity. }
  split; [exact Hm|]. split.
  - unfold accepted. rewrite <- TrimSpace_empty. by split; [intros [? _] | split].
  - intros e. destruct req as [kw wt meta]. unfold upsertKeyword.
    cbn [Keyword Weight Meta] in *.
    destruct (String.eqb_spec (TrimSpace kw) "") as [E | _]; [done|].
    destruct (wt =? 0)%Z, meta as [m|];
      cbn [Keyword Weight Meta] in *;
      unfold Marshal; rewrite service_facts.marshals_payload;
      first [rewrite Hm | change (marshals (AMap (Some ∅))) with true];
      cbv iota; unfold bind, Do, ret;
      lazymatch goal with
      | |- context [perform ?c ?s] => destruct (perform c s) as [[err | res] s']
      end;
      try destruct (IsError res); done.
Qed.
End Decoding.

Lemma decoded_request_encodable_witness :
  marshals (AMap (Meta tv_ranked)) = true
  /\ (accepted tv_ranked <-> ~ white (bytes (Keyword tv_ranked)))
  /\ forall e, (upsertKeyword tv_ranked (start [])).1
               <> Some (fmt_Errorf "payload 직렬화 실패: %w" (OpError e)).
Proof.
  apply (decoded_request_encodable (H := ascii_names)) with (r := post_meta).
  - intros lit bits. unfold ParseFloat, ascii_names.
    destruct (String.eqb lit "0"); [by intros [= <-]|].
    destruct (String.eqb lit "1"); [by intros [= <-] | done].
  - vm_compute. reflexivity.
Defined.
End encodable.

(** ** The start of the service *)
Module startup_facts.
Import unicode strings json_lib http esapi main keyword wire startup forms sample cases.
Import utf8_facts trim_facts.
#[local] Open Scope string_scope.

Section Service.
Context `{Engine} `{ClientLib}.

(** [ensureIndex] returns no error when the index is found, or is not
    found and then created, and in no other case. *)
Lemma ensureIndex_ready w :
  (ensureIndex w).1 = None
  <-> status (perform check (engine w)).1 = Some 200
      \/ (status (perform check (engine w)).1 = Some 404
          /\ exists n,
               status (perform create (perform check (engine w)).2).1 = Some n
               /\ (n <= 299)%Z).
Proof.
  unfold ensureIndex, bind, Do, ret, check, create.
  destruct (perform (Indices_Exists [indexName]) (engine w)) as [[e1 | res1] s1];
    cbn [fst snd status engine trace].
  { split; [done|]. by intros [[=] | [[=] _]]. }
  unfold StatusOK, StatusNotFound.
  destruct (Z.eqb_spec (StatusCode res1) 200) as [E200 | N200].
  { split; [|done]. intros _. left. by rewrite E200. }
  destruct (Z.eqb_spec (StatusCode res1) 404) as [E404 | N404];
    cbn [negb]; cbv beta iota zeta; cbn [engine trace fst snd].
  2:{ split; [done|]. intros [[=] | [[=] _]]; congruence. }
  destruct (perform (Indices_Create indexName (strings_NewReader indexMapping)) s1)
    as [[e2 | res2] s2]; cbn [fst snd status].
  { split; [done|]. intros [[=] | [_ (n & [=] & _)]]. congruence. }
  unfold IsError. destruct (Z.ltb_spec 299 (StatusCode res2)) as [Hbad | Hok];
    cbn [fst].
  - split; [done|]. intros [[=] | [_ (n & [= <-] & Hn)]]; [congruence | lia].
  - split; [|done]. intros _. right. split; [by rewrite E404|].
    eexists. split; [reflexivity | lia].
Qed.

(** X20. [main] comes to listen exactly when the client accepts the
    configuration and the index is ready: found (200), or not found
    (404) and created (at most 299). When the client refuses the
    configuration, [main] gives up before any call to the engine. *)
Theorem main_serves_iff env w :
  ((exists srv port esURL, (main env w).1 = ListenAndServe srv port esURL)
   <-> NewClient (config env) = None
       /\ (status (perform check (engine w)).1 = Some 200
           \/ (status (perform check (engine w)).1 = Some 404
               /\ exists n,
                    status (perform create (perform check (engine w)).2).1 = Some n
                    /\ (n <= 299)%Z)))
  /\ (forall e, NewClient (config env) = Some e ->
        main env w = (Fatalf "elasticsearch 초기화 실패: %v" e, w)).
Proof.
  rewrite <- ensureIndex_ready. unfold main. fold (config env).
  destruct (NewClient (config env)) as [e|].
  { split; [|by intros e' [= <-]].
    split; [by intros (srv & port & url & [=]) | by intros [[=] _]]. }
  split; [|done]. unfold bind, ret.
  destruct (ensureIndex w) as [[e|] w']; cbn [fst].
  - split; [by intros (srv & port & url & [=]) | by intros [_ [=]]].
  - split; [done|]. intros _. by eexists _, _, _.
Qed.

(** X21. When [main] comes to listen: the address of the server is a
    colon and the port, and the port is [8080] when [PORT] is not set or
    is white space, and [PORT] as it is otherwise -- white space around
    it included; the address of the engine, announced and handed to the
    client, is [ELASTICSEARCH_URL] without the white space around it, or
    the local default when nothing is left, and so is never empty. *)
Theorem main_listens env w srv port esURL :
  (main env w).1 = ListenAndServe srv port esURL ->
  Addr srv = ":" +:+ port
  /\ ReadHeaderTimeout srv = 3%Z
  /\ (white (bytes (Getenv env "PORT")) -> port = "8080")
  /\ (~ white (bytes (Getenv env "PORT")) -> port = Getenv env "PORT")
  /\ (white (bytes (Getenv env "ELASTICSEARCH_URL")) -> esURL = defaultESHost)
  /\ (~ white (bytes (Getenv env "ELASTICSEARCH_URL")) ->
      esURL = TrimSpace (Getenv env "ELASTICSEARCH_URL"))
  /\ esURL <> ""
  /\ Addresses (config env) = [esURL].
Proof.
  rewrite <- !TrimSpace_empty. unfold main. fold (config env).
  destruct (NewClient (config env)) as [e|]; [done|].
  unfold bind, ret. destruct (ensureIndex w) as [[e|] w']; cbn [fst]; [done|].
  intros [= <- <- <-]. cbn [Addr ReadHeaderTimeout config Addresses].
  split; [done|]. split; [done|].
  destruct (String.eqb_spec (TrimSpace (Getenv env "PORT")) "") as [Ep | Np],
           (String.eqb_spec (TrimSpace (Getenv env "ELASTICSEARCH_URL")) "")
             as [Eu | Nu];
    repeat (split; [done|]); done.
Qed.
End Service.

Lemma main_listens_witness :
  Addr {| Addr := ": 9090"; ReadHeaderTimeout := 3 |} = ":" +:+ " 9090"
  /\ ReadHeaderTimeout {| Addr := ": 9090"; ReadHeaderTimeout := 3 |} = 3%Z
  /\ (white (bytes (Getenv staging "PORT")) -> " 9090" = "8080")
  /\ (~ white (bytes (Getenv staging "PORT")) -> " 9090" = Getenv staging "PORT")
  /\ (white (bytes (Getenv staging "ELASTICSEARCH_URL")) ->
      "http://es:9200" = defaultESHost)
  /\ (~ white (bytes (Getenv staging "ELASTICSEARCH_URL")) ->
      "http://es:9200" = TrimSpace (Getenv staging "ELASTICSEARCH_URL"))
  /\ "http://es:9200" <> ""
  /\ Addresses (config staging) = ["http://es:9200"].
Proof.
  apply (main_listens staging (start [answer 200 None])).
  vm_compute. reflexivity.
Defined.
End startup_facts.

(** ** The handlers on examples *)
Module handler_cases.
Import unicode strings json_lib http esapi main keyword wire forms sample cases.
Import utf8_facts trim_facts handlers suggest_outcome.
#[local] Open Scope string_scope.

Lemma handleKeywords_codes_witness :
  (Code (handleKeywords post_iphone (start [answer 201 None])).1 = 400
   <-> decoded post_iphone = None)
  /\ (Code (handleKeywords post_iphone (start [answer 201 None])).1 = 201
      <-> exists req res,
            decoded post_iphone = Some req /\ accepted req
            /\ (updated req (start [answer 201 None])).1 = inr res
            /\ (StatusCode res <= 299)%Z)
  /\ (Code (handleKeywords post_iphone (start [answer 201 None])).1 = 201
      \/ Code (handleKeywords post_iphone (start [answer 201 None])).1 = 400
      \/ Code (handleKeywords post_iphone (start [answer 201 None])).1 = 500).
Proof.
  apply (handleKeywords_codes post_iphone (start [answer 201 None])).
  reflexivity.
Defined.

(** A body with a weight and no keyword: 500, and the engine is not
    called. *)
Lemma handleKeywords_blank_keyword_witness :
  handleKeywords post_weight_only (start [answer 201 None])
  = (http_Error "업서트 실패" 500,
     {| engine := [answer 201 None];
        trace := [ReadBody;
                  LogPrintf "upsert 실패: %v" (errors_New "keyword가 비어 있음")] |}).
Proof.
  apply (proj1 (handleKeywords_blank_keyword post_weight_only
                  (start [answer 201 None]) eq_refl)
               {| Keyword := ""; Weight := 3; Meta := None |}).
  - vm_compute. reflexivity.
  - exact white_nil.
Defined.

(** A weight with a fraction: 400. *)
Lemma handleKeywords_bad_body_witness :
  handleKeywords post_fraction (start [answer 201 None])
  = (http_Error "잘못된 요청 본문" 400,
     {| engine := [answer 201 None]; trace := [ReadBody] |}).
Proof.
  apply (handleKeywords_bad_body post_fraction (start [answer 201 None])).
  - reflexivity.
  - right. eexists. split; [reflexivity|]. right.
    exists [("keyword", JString "tv"); ("weight", JNumber "1.5")],
           "weight", (JNumber "1.5").
    split; [reflexivity|]. split; [right; by left|].
    right. left. split; vm_compute; reflexivity.
Defined.

Lemma handleKeywords_created_witness :
  handleKeywords post_iphone (start [answer 201 None])
  = ({| Code := 201; ContentType := None; Content := Empty |},
     {| engine := [];
        trace := trace (start []) ++ [ReadBody; Call (Update (update_of iphone))] |}).
Proof.
  apply (handleKeywords_created post_iphone (start [answer 201 None]) iphone
           {| StatusCode := 201; esapi.Body := None |} []).
  - reflexivity.
  - vm_compute. reflexivity.
  - split; [vm_compute; discriminate | vm_compute; reflexivity].
  - reflexivity.
  - cbn [StatusCode]. lia.
Defined.

Lemma handleSuggest_effects_witness :
  engine (handleSuggest (get_suggest " iph ") (start [answer 503 None])).2
  = (searched (TrimSpace (Get (Query (get_suggest " iph ")) "q"))
              (start [answer 503 None])).2
  /\ ((exists l,
          (handleSuggest (get_suggest " iph ") (start [answer 503 None])).1
          = writeJSON {| Suggestions := l |}
          /\ trace (handleSuggest (get_suggest " iph ") (start [answer 503 None])).2
             = (trace (start [answer 503 None])
                ++ [Call (asked (TrimSpace (Get (Query (get_suggest " iph ")) "q")))])%list)
      \/ (exists e,
             (handleSuggest (get_suggest " iph ") (start [answer 503 None])).1
             = http_Error "검색 실패" 500
             /\ trace (handleSuggest (get_suggest " iph ") (start [answer 503 None])).2
                = (trace (start [answer 503 None])
                   ++ [Call (asked (TrimSpace (Get (Query (get_suggest " iph ")) "q")));
                       LogPrintf "suggest 실패: %v" e])%list)).
Proof.
  apply (handleSuggest_effects (get_suggest " iph ") (start [answer 503 None])).
  vm_compute. discriminate.
Defined.

Lemma handleSuggest_completes_witness :
  handleSuggest (get_suggest " iph ") (start [answer 200 (Some two_groups)])
  = ({| Code := 200;
        ContentType := Some "application/json";
        Content := Encoded {| Suggestions := ["iphone 15"; ""; ""] |} |},
     {| engine := []; trace := [Call (asked "iph")] |}).
Proof.
  apply (handleSuggest_completes
           (get_suggest " iph ") (start [answer 200 (Some two_groups)])
           {| StatusCode := 200; esapi.Body := Some two_groups |} [] two_groups
           [("brands", [["apple"]]); ("ac", [["iphone 15"; ""; ""]; []])]).
  - vm_compute. discriminate.
  - reflexivity.
  - reflexivity.
  - reflexivity.
  - exact two_groups_shape.
Defined.
End handler_cases.
